(** * HG marker detection: the cutoff slide, rank fusion and output trimming

    A shallow embedding of [hgmd/hgmd.py] and [hgmd/__main__.py].

    Expression values, statistics and p-values are floats that the embedded
    code only compares, negates and (for two integer ranks) averages; they are
    modelled as rationals [Q] compared with [Qle_bool], NaN apart, which is
    [None] in the columns that can hold it.  Tables (pandas DataFrames) are
    lists of row records, in row order.  Python exceptions are the [Raise]
    results of a small error monad.  The calls into numpy and pandas are
    modelled by what they compute; the XL-mHG test and the t-test, whose
    values the code only stores and ranks, are parameters. *)

From Stdlib Require Import String.
From Stdlib Require Import List Arith ZArith QArith Lia Bool.
From Stdlib Require Import Permutation Sorted Lqa.
From Equations Require Import Equations.
Import ListNotations.

Set Implicit Arguments.
Open Scope nat_scope.

(** ** Errors *)

Inductive exn : Type :=
| IndexError
| ValueError
| TypeError.

Inductive result (A : Type) : Type :=
| Ok (a : A)
| Raise (e : exn).

Arguments Ok {A} a.
Arguments Raise {A} e.

Definition bind {A B : Type} (r : result A) (k : A -> result B) : result B :=
  match r with
  | Ok a => k a
  | Raise e => Raise e
  end.

Notation "x <- r ;; k" := (bind r (fun x => k))
  (at level 61, r at next level, right associativity).

Fixpoint mapM {A B : Type} (f : A -> result B) (l : list A) : result (list B) :=
  match l with
  | [] => Ok []
  | a :: l' => b <- f a ;; bs <- mapM f l' ;; Ok (b :: bs)
  end.

(** ** Comparisons on values *)

Definition Qltb (x y : Q) : bool := negb (Qle_bool y x).

(** ** numpy *)

Module Numpy.

(** [numpy.searchsorted(a, v, side='left')]: a binary search for the leftmost
    insertion point of [v] in [a], between [lo] and [hi]. *)
Equations? bisect_left (a : list Q) (v : Q) (lo hi : nat) : nat
  by wf (hi - lo) lt :=
  bisect_left a v lo hi with lt_dec lo hi := {
    | right _ := lo
    | left _ with Qltb (nth (lo + (hi - lo) / 2) a 0%Q) v := {
        | true := bisect_left a v (S (lo + (hi - lo) / 2)) hi
        | false := bisect_left a v lo (lo + (hi - lo) / 2) } }.
Proof.
  all: change (fst (Nat.divmod (hi - lo) 1 0 1)) with ((hi - lo) / 2);
    pose proof (Nat.div_lt (hi - lo) 2); lia.
Qed.

Definition searchsorted_left (a : list Q) (v : Q) : nat :=
  bisect_left a v 0 (length a).

End Numpy.

(** ** pandas *)

Module Pandas.

(** [DataFrame.sort_values(by=..., ascending=True)] on a float column without
    NaN, as a sort by insertion.  Rows with equal keys keep the order they
    came in, which is the order the default sort of numpy leaves on a short
    column: [x] goes in front of the first row whose key is not smaller. *)
Fixpoint insert_by {A : Type} (key : A -> Q) (x : A) (l : list A) : list A :=
  match l with
  | [] => [x]
  | y :: l' =>
      if Qle_bool (key x) (key y) then x :: y :: l'
      else y :: insert_by key x l'
  end.

Definition sort_values {A : Type} (key : A -> Q) (t : list A) : list A :=
  fold_right (insert_by key) [] t.

(** The order of two rows by their keys, ascending and descending. *)
Definition key_le {A : Type} (key : A -> Q) (a b : A) : Prop :=
  (key a <= key b)%Q.

Definition key_ge {A : Type} (key : A -> Q) (a b : A) : Prop :=
  (key b <= key a)%Q.

(** [sort_values(by=..., ascending=False)]: pandas reverses the rows, sorts
    ascending and reverses the outcome. *)
Definition sort_values_desc {A : Type} (key : A -> Q) (t : list A) : list A :=
  rev (sort_values key (rev t)).

(** A column that may hold NaN ([None]); [sort_values] puts NaN rows last. *)
Definition sort_values_nan {A : Type} (key : A -> option Q) (t : list A)
  : list A :=
  let value r := match key r with Some q => q | None => 0%Q end in
  let has r := match key r with Some _ => true | None => false end in
  sort_values value (filter has t) ++ filter (fun r => negb (has r)) t.

(** [t['col'] = t.reset_index().index + 1]: the new column holds 1, 2, 3, ...
    down the rows. *)
Definition assign_position {A : Type} (t : list A) : list (A * nat) :=
  combine t (seq 1 (length t)).

(** [DataFrame.head(n)]: the first [n] rows; for a negative [n], all rows but
    the last [-n]. *)
Definition head {A : Type} (n : Z) (t : list A) : list A :=
  if (0 <=? n)%Z then firstn (Z.to_nat n) t
  else firstn (length t - Z.to_nat (- n)) t.

(** [Series.rank()] with the default method ('average'): the mean of the
    positions the value would take in the sorted column; NaN stays NaN. *)
Definition count_if {A : Type} (f : A -> bool) (l : list A) : Z :=
  Z.of_nat (length (filter f l)).

Definition rank_of (col : list Q) (x : Q) : Q :=
  (inject_Z (count_if (fun y => Qltb y x) col)
   + (inject_Z (count_if (fun y => Qeq_bool y x) col) + 1) / 2)%Q.

Definition rank (col : list Q) : list Q := map (rank_of col) col.

Definition somes {A : Type} (col : list (option A)) : list A :=
  flat_map (fun o => match o with Some a => [a] | None => [] end) col.

Definition rank_nan (col : list (option Q)) : list (option Q) :=
  map (option_map (rank_of (somes col))) col.

End Pandas.

(** ** The cutoff slide of [singleton_test] *)

Module Slide.
Import Numpy.

(** Lines 125-133 of hgmd.py.  [vals] is [exp[gene].values], the gene's
    column after the descending sort; [idx] is the raw cutoff index returned
    by the XL-mHG test.  [exp.iloc[idx]] raises [IndexError] past the end. *)
Definition cutoff_value (vals : list Q) (idx : nat) : result Q :=
  match nth_error vals idx with
  | Some c => Ok c
  | None => Raise IndexError
  end.

Definition cutoff_slide (vals : list Q) (idx : nat) : result nat :=
  c <- cutoff_value vals idx ;;
  Ok (searchsorted_left (map Qopp vals) (- c)%Q).

(** Sorted by expression, descending / ascending, stated on positions. *)
Definition descending (vals : list Q) : Prop :=
  forall i j, i <= j < length vals -> (nth j vals 0 <= nth i vals 0)%Q.

Definition ascending (a : list Q) : Prop :=
  forall i j, i <= j < length a -> (nth i a 0 <= nth j a 0)%Q.

Fixpoint descendingb (vals : list Q) : bool :=
  match vals with
  | [] => true
  | x :: rest =>
      match rest with
      | [] => true
      | y :: _ => Qle_bool y x && descendingb rest
      end
  end.

(** The reading of the slide as a search for the last position that holds
    the cutoff value [c]. *)
Fixpoint last_position_holding (vals : list Q) (c : Q) : option nat :=
  match vals with
  | [] => None
  | x :: rest =>
      match last_position_holding rest c with
      | Some i => Some (S i)
      | None => if Qeq_bool x c then Some 0 else None
      end
  end.

End Slide.

(** ** hgmd/hgmd.py *)

Module Hgmd.
Import Numpy Pandas Slide.

(** The DataFrame returned by [get_cell_data]: one row per cell; the first
    column is the cluster, then the two tSNE scores, then one column per
    gene.  Held by columns. *)
Record Cells : Type := {
  cluster : list Z;
  tSNE_1 : list Q;
  tSNE_2 : list Q;
  gene_columns : list (string * list Q)
}.

(** A row of the table [singleton_test] builds.  The t-test columns and the
    combined rank are NaN ([None]) when scipy has no value to give. *)
Record SingletonRow : Type := {
  gene : string;
  HG_stat : Q;
  mHG_pval : Q;
  mHG_cutoff_index : nat;
  mHG_cutoff_value : Q;
  t_stat : option Q;
  t_pval : option Q
}.

(** [exp]: the cluster and gene columns, sorted by expression (descending),
    and [v], the cluster membership of its rows as 1s and 0s. *)
Definition sorted_exp (cells : Cells) (g : string * list Q) : list (Z * Q) :=
  sort_values_desc snd (combine (cluster cells) (snd g)).

Definition membership (clus : Z) (exp : list (Z * Q)) : list Z :=
  map (fun r => if (fst r =? clus)%Z then 1%Z else 0%Z) exp.

Section SingletonTest.

(** The two library calls of the loop body.  [hg.xlmhg_test(v, X=X, L=L)]
    returns (statistic, cutoff, p-value) or raises; [ss.ttest_ind] returns
    (statistic, p-value), NaN where undefined. *)
Variable xlmhg_test : list Z -> option Z -> option Z -> result (Q * nat * Q).
Variable ttest_ind : list Q -> list Q -> option Q * option Q.

(** The body of the loop over [cells.columns[3:]]. *)
Definition test_gene (cells : Cells) (clus : Z) (X L : option Z)
  (g : string * list Q) : result SingletonRow :=
  let exp := sorted_exp cells g in
  let v := membership clus exp in
  res <- xlmhg_test v X L ;;
  let '(stat, idx, pval) := res in
  c <- cutoff_value (map snd exp) idx ;;
  idx' <- cutoff_slide (map snd exp) idx ;;
  let sample := filter (fun r => (fst r =? clus)%Z) exp in
  let population := filter (fun r => negb (fst r =? clus)%Z) exp in
  let '(ts, tp) := ttest_ind (map snd sample) (map snd population) in
  Ok {| gene := fst g; HG_stat := stat; mHG_pval := pval;
        mHG_cutoff_index := idx'; mHG_cutoff_value := c;
        t_stat := ts; t_pval := tp |}.

Definition add_rank (a : Q) (b : option Q) : option Q :=
  option_map (Qplus a) b.

Definition singleton_test (cells : Cells) (clus : Z) (X L : option Z)
  : result (list (SingletonRow * option Q)) :=
  output <- mapM (test_gene cells clus X L) (gene_columns cells) ;;
  let HG_rank := rank (map mHG_pval output) in
  let t_rank := rank_nan (map t_pval output) in
  let combined_rank := map (fun p => add_rank (fst p) (snd p))
                           (combine HG_rank t_rank) in
  let output := combine output combined_rank in
  Ok (sort_values_nan snd output).

End SingletonTest.

(** A row of the table the docstring of [pair_test] promises. *)
Record PairTestRow : Type := {
  pt_gene : string;
  pt_gene_B : string;
  pt_HG_stat : Q
}.

(** [pair_test] returns [pd.DataFrame()]: a table without rows. *)
Definition pair_test (cells : Cells) (singleton : list (SingletonRow * option Q))
  (clus : Z) (min_exp_ratio : Q) : list PairTestRow :=
  [].

(** DataFrames are mutable objects handed over by reference; the heap maps
    an address to the frame stored there, a frame being its columns by
    name. *)
Inductive cell : Type :=
| CInt (z : Z)
| CFloat (q : Q)
| CStr (s : string)
| CNaN.

Definition Frame : Type := list (string * list cell).
Definition Heap : Type := list (nat * Frame).
Definition State (A : Type) : Type := Heap -> A * Heap.

Inductive NoneType : Type := PyNone.

Definition deref (h : Heap) (r : nat) : option Frame :=
  option_map snd (find (fun p => fst p =? r) h).

Definition column_names (f : Frame) : list string := map fst f.

(** The body of [find_TP_TN] is [pass]. *)
Definition find_TP_TN (cells singleton pair : nat) (clus : Z)
  : State NoneType :=
  fun h => (PyNone, h).

End Hgmd.

(** ** Where [singleton_test] can fail *)

Module SingletonFailure.

(** The error the loop body meets on gene [g], if any: the one the XL-mHG
    call raises, or the [IndexError] of [exp.iloc] on a cutoff that is not a
    position of the column. *)
Definition gene_error
  (xlmhg_test : list Z -> option Z -> option Z -> result (Q * nat * Q))
  (cells : Hgmd.Cells) (clus : Z) (X L : option Z) (g : string * list Q)
  : option exn :=
  match xlmhg_test (Hgmd.membership clus (Hgmd.sorted_exp cells g)) X L with
  | Raise e => Some e
  | Ok (_, idx, _) =>
      if idx <? length (Hgmd.sorted_exp cells g) then None
      else Some IndexError
  end.

(** The number of cells whose expression of gene [g] is above [c]. *)
Definition cells_above (cells : Hgmd.Cells) (g : string * list Q) (c : Q)
  : nat :=
  length (filter (fun x => Qltb c x)
            (map snd (combine (Hgmd.cluster cells) (snd g)))).

End SingletonFailure.

(** ** The combination enumerator *)

Module Enumerator.

(** Modelled from the spec: [hgmd.pair_product], [hgmd.combination_product]
    and [quads.combination_product] are not part of the sources at hand.
    Section 4.3 has them enumerate the canonical k-tuples (strictly
    increasing internal index) of the candidate genes they are given; with
    the candidates listed by internal index these are the sublists of
    length [k]. *)
Fixpoint combinations {A : Type} (k : nat) (l : list A) : list (list A) :=
  match k with
  | 0 => [[]]
  | S k' =>
      match l with
      | [] => []
      | x :: l' => map (cons x) (combinations k' l') ++ combinations k l'
      end
  end.

End Enumerator.

(** ** hgmd/__main__.py *)

Module Main.
Import Pandas.

(** *** The configuration boundary of [main] *)

(** [args.K] and [args.Trim] once read by [int(...)]; [None] when argparse
    left the value at [None]. *)
Definition main_K (K : option Z) : Z :=
  let K := match K with Some k => k | None => 2%Z end in
  if (K >? 4)%Z then 4%Z else K.

Definition main_Trim (Trim : option Z) : Z :=
  match Trim with Some t => t | None => 2000%Z end.

(** The argparse default of [-Trim]. *)
Definition default_Trim : option Z := Some 2000%Z.

(** [args.Abbrev]: the default [[]], the string that follows the flag, or
    [None] for a flag given bare. *)
Inductive AbbrevArg : Type :=
| AbbrevEmpty
| AbbrevStr (s : string)
| AbbrevBare.

Definition len_abbrev (a : AbbrevArg) : result nat :=
  match a with
  | AbbrevEmpty => Ok 0
  | AbbrevStr s => Ok (String.length s)
  | AbbrevBare => Raise TypeError
  end.

(** *** Singletons *)

(** A row of the [xlmhg] table, and of [sing_output] after its merges, with
    the columns the ranking reads. *)
Record SingRow : Type := {
  gene_1 : string;
  mHG_stat : Q;
  mHG_pval : Q;
  Log2FoldChange : Q
}.

(** Lines 245-260 of [process]: the genes handed to the enumerators. *)
Definition trips_list (abbrev : AbbrevArg) (xlmhg : list SingRow)
  : result (option (list string)) :=
  let xlmhg := sort_values mHG_stat xlmhg in
  n <- len_abbrev abbrev ;;
  if 0 <? n then Ok (Some (firstn 150 (map gene_1 xlmhg)))
  else Ok None.

(** Modelled from the spec: the calls [hgmd.combination_product(discrete_exp,
    cls_ser, cls, trips_list)] and [quads.combination_product(...)] of
    [process], whose functions are not part of the sources at hand.  By
    section 4.3 the tuples of size 3 and 4 are drawn from the candidate list
    when there is one, from all the genes otherwise. *)
Definition abbreviated_tuples (k : nat) (abbrev : AbbrevArg)
  (xlmhg : list SingRow) : result (list (list string)) :=
  tl <- trips_list abbrev xlmhg ;;
  match tl with
  | Some genes => Ok (Enumerator.combinations k genes)
  | None => Ok (Enumerator.combinations k (map gene_1 xlmhg))
  end.

(** Lines 387-401 of [process]: the rank columns of the singleton table. *)
Record RankedSing : Type := {
  row : SingRow;
  hgrank : nat;
  fcrank : nat;
  rank : nat
}.

Definition finrank (r : SingRow * nat * nat) : Q :=
  ((inject_Z (Z.of_nat (snd (fst r))) + inject_Z (Z.of_nat (snd r))) / 2)%Q.

Definition sing_output (merged : list SingRow) : list RankedSing :=
  let t := sort_values mHG_stat merged in
  let t := assign_position t in
  let t := sort_values_desc (fun r => Log2FoldChange (fst r)) t in
  let t := assign_position t in
  let t := sort_values finrank t in
  map (fun r => {| row := fst (fst (fst r)); hgrank := snd (fst (fst r));
                   fcrank := snd (fst r); rank := snd r |})
      (assign_position t).




(** *** Pairs, triples and quadruples *)

(** A row of the tables of [hgmd.pair_hg], [hgmd.trips_hg] and
    [quads.quads_hg]: the genes of the combination and its test values. *)
Record ComboRow : Type := {
  genes : list string;
  HG_stat : Q;
  HG_pval : Q
}.

(** Lines 325-329 of [process]. *)
Definition pair_out_initial (pair : list ComboRow) : list (ComboRow * nat) :=
  assign_position (sort_values HG_pval pair).

Definition pair_out_print (Trim : Z) (pair : list ComboRow)
  : list (ComboRow * nat) :=
  head Trim (pair_out_initial pair).

(** Lines 425-443 of [process]. *)
Definition trips_output (trips : list ComboRow) : list (ComboRow * nat) :=
  assign_position (sort_values HG_stat trips).

Definition quads_final (quads_fin : list ComboRow) : list (ComboRow * nat) :=
  assign_position (sort_values HG_stat quads_fin).

(** *** The tables [process] writes *)

Record Exports : Type := {
  singleton_csv : list RankedSing;
  pair_HG_stat_ranked_csv : list (ComboRow * nat);
  pair_final_ranking_csv : list (ComboRow * nat);
  trips_csv : option (list (ComboRow * nat));
  quads_csv : option (list (ComboRow * nat))
}.

(** [merged] is [sing_output] before its rank columns, [pair] the outcome of
    [hgmd.pair_hg], [ranked_pair] that of [hgmd.ranker], [trips] and
    [quads_fin] those of the triple and quadruple tests. *)
Definition process_exports (K Trim : Z) (merged : list SingRow)
  (pair : list ComboRow) (ranked_pair : list (ComboRow * nat))
  (trips quads_fin : list ComboRow) : Exports :=
  {| singleton_csv := sing_output merged;
     pair_HG_stat_ranked_csv := pair_out_print Trim pair;
     pair_final_ranking_csv := head Trim ranked_pair;
     trips_csv :=
       if (K =? 3)%Z then Some (head Trim (trips_output trips)) else None;
     quads_csv :=
       if (K >=? 4)%Z then Some (head Trim (quads_final quads_fin))
       else None |}.

End Main.

(** ** More of [process] *)

Module Process.


End Process.

(** ** Errors of the data reading and of the cluster loop *)

Module Exc.

Inductive error : Type :=
| KeyError
| IndexError
| ValueError
| ZeroDivisionError.

Inductive outcome (A : Type) : Type :=
| Return (a : A)
| Throw (e : error).

Arguments Return {A} a.
Arguments Throw {A} e.

Definition and_then {A B : Type} (r : outcome A) (k : A -> outcome B)
  : outcome B :=
  match r with
  | Return a => k a
  | Throw e => Throw e
  end.

End Exc.

(** ** [read_data] and the alignment loop of [main] *)

Module ReadData.
Import Exc.

(** A Series or the row index of a DataFrame: the labels (cell names, as
    strings) with the value each row holds, in row order. *)
Definition Labelled (V : Type) : Type := list (string * V).

Definition has_label {V : Type} (l : string) (s : Labelled V) : bool :=
  existsb (fun p => String.eqb (fst p) l) s.

(** [s.drop(l, inplace=True)]: every row labelled [l] goes; [KeyError] when
    there is none. *)
Definition drop {V : Type} (l : string) (s : Labelled V)
  : outcome (Labelled V) :=
  if has_label l s
  then Return (filter (fun p => negb (String.eqb (fst p) l)) s)
  else Throw KeyError.

Definition listed (names : list string) (l : string) : bool :=
  existsb (String.eqb l) names.

Definition labels {V : Type} (s : Labelled V) : list string := map fst s.

(** A label of the walk that is not among [names]. *)
Definition unlisted_in (names walk : list string) (l : string) : bool :=
  negb (listed names l) && existsb (String.eqb l) walk.

(** The loop shared by [read_data] (lines 96-100) and [main] (lines 575-579):
    the rows are walked in their order at the start of the loop, and a row
    whose label is not among [names] is dropped from the table by label. *)
Fixpoint drop_unlisted {V : Type} (names : list string)
  (walk : list string) (s : Labelled V) : outcome (Labelled V) :=
  match walk with
  | [] => Return s
  | l :: walk' =>
      if listed names l then drop_unlisted names walk' s
      else and_then (drop l s) (drop_unlisted names walk')
  end.

(** Lines 93-100 of [read_data].  [cells] are the column names of the marker
    file; nothing is dropped when there are as many of them as rows in the
    cluster series. *)
Definition read_data_align (cells : list string) (cls_ser : Labelled Z)
  : outcome (Labelled Z) :=
  if length cells =? length cls_ser then Return cls_ser
  else drop_unlisted cells (map fst cls_ser) cls_ser.


(** *** Downsampling (lines 158-212 of [read_data]) *)

Definition count_cluster (c : Z) (s : Labelled Z) : Z :=
  Z.of_nat (length (filter (fun p => (snd p =? c)%Z) s)).








Section Downsample.

(** [math.ceil(counts[c] * (M / N))], a computation on floats, and the raw
    draw of the random generator at each turn of the loop. *)
Variable ceil_mul : Z -> Z -> Z -> Z.
Variable rng : nat -> nat.




End Downsample.

End ReadData.

(** ** The gene list of [read_data] (lines 104-142) *)

Module GeneList.
Import Exc.

(** Strings hold characters below U+0100. *)
Definition comma : Ascii.ascii := Ascii.ascii_of_N 44.
Definition newline : Ascii.ascii := Ascii.ascii_of_N 10.

(** [c in s] *)
Fixpoint contains (c : Ascii.ascii) (s : string) : bool :=
  match s with
  | EmptyString => false
  | String a s' => Ascii.eqb a c || contains c s'
  end.

(** [s[:-1]] *)
Fixpoint drop_last (s : string) : string :=
  match s with
  | EmptyString => EmptyString
  | String a EmptyString => EmptyString
  | String a s' => String a (drop_last s')
  end.

(** [s.split(c)]: the fields between the occurrences of [c], one more than
    there are occurrences. *)
Fixpoint split_on (c : Ascii.ascii) (s : string) : list string :=
  match s with
  | EmptyString => [EmptyString]
  | String a s' =>
      if Ascii.eqb a c then EmptyString :: split_on c s'
      else match split_on c s' with
           | h :: t => String a h :: t
           | [] => [String a EmptyString]
           end
  end.

(** The line boundaries of [str.splitlines]. *)
Definition is_boundary (a : Ascii.ascii) : bool :=
  existsb (N.eqb (Ascii.N_of_ascii a)) [10; 11; 12; 13; 28; 29; 30; 133]%N.

(** [s.splitlines()[0]] for a string that is not empty. *)
Fixpoint first_splitline (s : string) : string :=
  match s with
  | EmptyString => EmptyString
  | String a s' =>
      if is_boundary a then EmptyString else String a (first_splitline s')
  end.

(** [l.remove(x)]: the first item equal to [x] goes; [ValueError] when there
    is none. *)
Fixpoint remove_first (x : string) (l : list string) : outcome (list string) :=
  match l with
  | [] => Throw ValueError
  | y :: l' =>
      if String.eqb y x then Return l'
      else and_then (remove_first x l') (fun r => Return (y :: r))
  end.

(** A column of the marker table: its name and its values. *)
Definition Column : Type := (string * list Q)%type.

(** [old[gene]], [None] for the [KeyError] of a name that is no column; the
    names of the columns are distinct. *)
Definition get_column (old : list Column) (gene : string)
  : option (list Q) :=
  option_map snd (find (fun c => String.eqb (fst c) gene) old).

(** [new[gene] = data]: the column is replaced where it stands, or added
    after the last one. *)
Definition set_column (new : list Column) (gene : string) (data : list Q)
  : list Column :=
  if existsb (fun c => String.eqb (fst c) gene) new
  then map (fun c => if String.eqb (fst c) gene then (gene, data) else c) new
  else new ++ [(gene, data)].

(** Lines 135-142: the columns named in the gene list, an unknown name being
    passed over ([try ... except: pass]). *)
Definition filter_genes (genes : list string) (old : list Column)
  : list Column :=
  fold_left
    (fun new gene =>
       match get_column old gene with
       | Some data => set_column new gene data
       | None => new
       end)
    genes [].

Definition no_comma (s : string) : bool := negb (contains comma s).

Section Parse.

(** [str.upper] *)
Variable upper : string -> string.

(** Line 104: the gene names of the marker table are upper-cased. *)
Definition upper_columns (old : list Column) : list Column :=
  map (fun c => (upper (fst c), snd c)) old.

(** Lines 123-126: a line loses its last character when it holds a
    newline. *)
Definition strip_line (line : string) : string :=
  if contains newline line then drop_last line else line.

(** The fields of an item with commas, upper-cased. *)
Definition fields (item : string) : list string :=
  map upper (split_on comma item).

(** Lines 127-132: walking a copy of the list, every item with a comma is
    removed from the list and its fields, upper-cased, are added at the
    end. *)
Fixpoint expand_commas (copy : list string) (lst : list string)
  : outcome (list string) :=
  match copy with
  | [] => Return lst
  | item :: copy' =>
      if contains comma item then
        and_then (remove_first item lst) (fun lst' =>
        expand_commas copy' (lst' ++ map upper (split_on comma item)))
      else expand_commas copy' lst
  end.

(** Lines 113-132, [lines] being what [readlines] returns. *)
Definition master_gene_list (lines : list string) : outcome (list string) :=
  match lines with
  | [line] => Return (split_on comma (upper (first_splitline line)))
  | _ => let lst := map strip_line lines in expand_commas lst lst
  end.

(** The marker table after the gene list was applied. *)
Definition read_data_genes (lines : list string) (old : list Column)
  : outcome (list Column) :=
  and_then (master_gene_list lines) (fun genes =>
  Return (filter_genes genes (upper_columns old))).

End Parse.

(** [str.upper] on the letters a to z. *)
Definition upper_char (a : Ascii.ascii) : Ascii.ascii :=
  let n := Ascii.N_of_ascii a in
  if ((97 <=? n) && (n <=? 122))%N then Ascii.ascii_of_N (n - 32) else a.

Fixpoint ascii_upper (s : string) : string :=
  match s with
  | EmptyString => EmptyString
  | String a s' => String (upper_char a) (ascii_upper s')
  end.

End GeneList.

(** ** The cluster loop of [main] *)

Module MainLoop.
Import Exc.

(** Lines 538-541: [C = abs(int(C))], 1 when the flag is absent. *)
Definition main_C (C : option Z) : Z :=
  match C with Some c => Z.abs c | None => 1%Z end.

(** [math.ceil(n / cores)] for a positive [cores]; the quotient of two
    lengths is far from the precision of a float, so the ceiling is the
    exact one. *)
Definition ceil_div (n cores : Z) : Z := ((n + cores - 1) / cores)%Z.

(** The body of the loop of lines 614-629, [n] times: the clusters whose
    processes are started together, then the clusters left. *)
Fixpoint groups (n : nat) (cores : nat) (clusters : list Z) : list (list Z) :=
  match n with
  | 0 => []
  | S n' => firstn cores clusters :: groups n' cores (skipn cores clusters)
  end.

(** Lines 607-629 of [main]: the batches of clusters, in the order they are
    started.  A division by zero raises [ZeroDivisionError]. *)
Definition main_groups (C : option Z) (clusters : list Z)
  : outcome (list (list Z)) :=
  let C := main_C C in
  let len := Z.of_nat (length clusters) in
  let cores := if (C >? len)%Z then len else C in
  if (cores =? 0)%Z then Throw ZeroDivisionError
  else
    let group_num := ceil_div len cores in
    Return (groups (Z.to_nat group_num) (Z.to_nat cores) clusters).

End MainLoop.

(** ** Sample inputs *)

Open Scope string_scope.

(** The column of the comment in [singleton_test]: [5.3 1.2 0 0 0 0]. *)
Definition slide_example : list Q := [53 # 10; 12 # 10; 0; 0; 0; 0]%Q.

(** Three genes whose mHG statistic and mHG p-value order them differently. *)
Definition fusion_example : list Main.SingRow :=
  [ {| Main.gene_1 := "A"; Main.mHG_stat := 1 # 100;
       Main.mHG_pval := 30 # 100; Main.Log2FoldChange := 3 |};
    {| Main.gene_1 := "B"; Main.mHG_stat := 2 # 100;
       Main.mHG_pval := 10 # 100; Main.Log2FoldChange := 2 |};
    {| Main.gene_1 := "C"; Main.mHG_stat := 3 # 100;
       Main.mHG_pval := 20 # 100; Main.Log2FoldChange := 1 |} ]%Q.

(** Three pairs, two of them with the same p-value. *)
Definition pair_example : list Main.ComboRow :=
  [ {| Main.genes := ["A"; "B"]; Main.HG_stat := 5 # 100;
       Main.HG_pval := 5 # 100 |};
    {| Main.genes := ["A"; "C"]; Main.HG_stat := 1 # 100;
       Main.HG_pval := 1 # 100 |};
    {| Main.genes := ["B"; "C"]; Main.HG_stat := 5 # 100;
       Main.HG_pval := 5 # 100 |} ]%Q.

(** Three cells, the first two in cluster 1, and two genes. *)
Definition cells_example : Hgmd.Cells :=
  {| Hgmd.cluster := [1; 1; 2]%Z;
     Hgmd.tSNE_1 := [0; 1; 2]%Q;
     Hgmd.tSNE_2 := [0; 1; 2]%Q;
     Hgmd.gene_columns :=
       [("A"%string, [5; 3; 0]%Q); ("B"%string, [0; 2; 2]%Q)] |}.

(** What the two libraries answer when no cell is in the cluster of
    interest: the XL-mHG test its trivial outcome (statistic 1, cutoff 0,
    p-value 1), the t-test NaN. *)
Definition xlmhg_trivial (v : list Z) (X L : option Z)
  : result (Q * nat * Q) :=
  Ok (1%Q, 0, 1%Q).

Definition ttest_nan (sample population : list Q) : option Q * option Q :=
  (None, None).

(** Answers that stand for the two libraries in an example where every
    value is a number: a p-value read off the membership vector, and the sum
    of the expression outside the cluster as t-test p-value. *)
Definition xlmhg_sample (v : list Z) (X L : option Z)
  : result (Q * nat * Q) :=
  Ok (1%Q, 0, (inject_Z (fold_right (fun b acc => b + 2 * acc)%Z 0%Z v) / 10)%Q).

Definition ttest_sample (sample population : list Q) : option Q * option Q :=
  (Some 0%Q, Some (fold_right Qplus 0%Q population)).

(** A heap with the three frames [find_TP_TN] is handed. *)
Definition heap_example : Hgmd.Heap :=
  [ (0, [("cluster"%string, [Hgmd.CInt 1; Hgmd.CInt 2]);
         ("A"%string, [Hgmd.CFloat 5; Hgmd.CFloat 0])]);
    (1, [("gene"%string, [Hgmd.CStr "A"]);
         ("HG_stat"%string, [Hgmd.CFloat (1 # 2)])]);
    (2, []) ].

Close Scope string_scope.

(** * Properties *)

Unset Implicit Arguments.

(** ** Comparisons *)

Lemma Qltb_lt (x y : Q) : Qltb x y = true <-> (x < y)%Q.
Proof.
  unfold Qltb. rewrite negb_true_iff.
  split; intro H.
  - apply Qnot_le_lt. intro L. apply Qle_bool_iff in L. congruence.
  - destruct (Qle_bool y x) eqn:E; [|reflexivity].
    apply Qle_bool_iff in E. exfalso. exact (Qlt_not_le _ _ H E).
Qed.

Lemma Qltb_ge (x y : Q) : Qltb x y = false <-> (y <= x)%Q.
Proof.
  unfold Qltb. rewrite negb_false_iff. apply Qle_bool_iff.
Qed.

Lemma Qle_bool_false (x y : Q) : Qle_bool x y = false <-> (y < x)%Q.
Proof.
  rewrite <- Qltb_lt. unfold Qltb. rewrite negb_true_iff. reflexivity.
Qed.

(** ** The binary search *)

Section Bisect.
Import Numpy Slide.

Lemma mid_bounds lo hi : lo < hi -> lo <= lo + (hi - lo) / 2 < hi.
Proof.
  intro H. pose proof (Nat.div_lt (hi - lo) 2). lia.
Qed.

Lemma bisect_left_spec (a : list Q) (v : Q) (lo hi : nat) :
  ascending a ->
  lo <= hi <= length a ->
  (forall i, i < lo -> (nth i a 0 < v)%Q) ->
  (forall i, hi <= i < length a -> (v <= nth i a 0)%Q) ->
  lo <= bisect_left a v lo hi <= hi /\
  (forall i, i < bisect_left a v lo hi -> (nth i a 0 < v)%Q) /\
  (forall i, bisect_left a v lo hi <= i < length a -> (v <= nth i a 0)%Q).
Proof.
  funelim (bisect_left a v lo hi); intros Hasc Hb Hlo Hhi.
  - repeat split; try lia; auto.
    intros i Hi. apply Hhi. lia.
  - pose proof (mid_bounds lo hi l) as Hm.
    apply Qltb_lt in Heq.
    destruct H as (Hr & Hbelow & Habove); auto; try lia.
    + intros i Hi.
      apply Qle_lt_trans with (y := nth (lo + (hi - lo) / 2) a 0%Q); auto.
      apply Hasc. lia.
    + repeat split; auto; lia.
  - pose proof (mid_bounds lo hi l) as Hm.
    apply Qltb_ge in Heq.
    destruct H as (Hr & Hbelow & Habove); auto; try lia.
    + intros i Hi.
      apply Qle_trans with (y := nth (lo + (hi - lo) / 2) a 0%Q);
        [exact Heq | apply Hasc; lia].
    + repeat split; auto; lia.
Qed.

Lemma searchsorted_left_spec (a : list Q) (v : Q) :
  ascending a ->
  searchsorted_left a v <= length a /\
  (forall i, i < searchsorted_left a v -> (nth i a 0 < v)%Q) /\
  (forall i, searchsorted_left a v <= i < length a -> (v <= nth i a 0)%Q).
Proof.
  intro Hasc. unfold searchsorted_left.
  assert (H0 : forall i, i < 0 -> (nth i a 0 < v)%Q) by (intros; lia).
  assert (Hn : forall i, length a <= i < length a -> (v <= nth i a 0)%Q)
    by (intros; lia).
  destruct (bisect_left_spec a v 0 (length a) Hasc ltac:(lia) H0 Hn)
    as (Hr & Hbelow & Habove).
  repeat split; auto; lia.
Qed.

Lemma nth_map_Qopp (vals : list Q) (i : nat) :
  nth i (map Qopp vals) 0%Q = (- nth i vals 0)%Q.
Proof.
  change 0%Q with (- 0)%Q at 1. apply map_nth.
Qed.

Lemma descending_ascending_opp (vals : list Q) :
  descending vals -> ascending (map Qopp vals).
Proof.
  intros Hd i j Hij. rewrite length_map in Hij.
  rewrite !nth_map_Qopp. apply Qopp_le_compat. apply Hd. exact Hij.
Qed.

Lemma descendingb_sound (vals : list Q) :
  descendingb vals = true -> descending vals.
Proof.
  induction vals as [|x rest IH]; intros Hb i j Hij; simpl in Hij; [lia|].
  destruct rest as [|y rest'].
  - assert (i = 0) by (simpl in Hij; lia).
    assert (j = 0) by (simpl in Hij; lia). subst. apply Qle_refl.
  - simpl in Hb. apply andb_true_iff in Hb. destruct Hb as [Hyx Hrest].
    apply Qle_bool_iff in Hyx. specialize (IH Hrest).
    destruct j as [|j].
    + assert (i = 0) by lia. subst. apply Qle_refl.
    + destruct i as [|i].
      * simpl nth at 2.
        apply Qle_trans with (y := y); auto.
        change (nth (S j) (x :: y :: rest') 0%Q)
          with (nth j (y :: rest') 0%Q).
        change y with (nth 0 (y :: rest') 0%Q) at 2.
        apply IH. simpl in *. lia.
      * change (nth (S j) (x :: y :: rest') 0%Q)
          with (nth j (y :: rest') 0%Q).
        change (nth (S i) (x :: y :: rest') 0%Q)
          with (nth i (y :: rest') 0%Q).
        apply IH. simpl in *. lia.
Qed.

(** What the slide computes: the first position whose value is not above
    the cutoff value. *)
Lemma cutoff_slide_bounds (vals : list Q) (idx : nat) (c : Q) :
  descending vals ->
  nth_error vals idx = Some c ->
  exists j,
    cutoff_slide vals idx = Ok j /\
    j <= idx /\
    (nth j vals 0 == c)%Q /\
    (forall i, i < j -> (c < nth i vals 0)%Q) /\
    (forall i, j <= i < length vals -> (nth i vals 0 <= c)%Q).
Proof.
  intros Hd Hc.
  unfold cutoff_slide, cutoff_value. rewrite Hc. simpl.
  set (j := searchsorted_left (map Qopp vals) (- c)%Q).
  destruct (searchsorted_left_spec (map Qopp vals) (- c)%Q
              (descending_ascending_opp vals Hd)) as (Hr & Hbelow & Habove).
  fold j in Hr, Hbelow, Habove. rewrite length_map in Hr, Habove.
  assert (Hidx : idx < length vals).
  { apply nth_error_Some. congruence. }
  assert (Hnth : nth idx vals 0%Q = c).
  { apply nth_error_nth. exact Hc. }
  assert (Hlow : forall i, i < j -> (c < nth i vals 0)%Q).
  { intros i Hi. specialize (Hbelow i Hi). rewrite nth_map_Qopp in Hbelow.
    apply Qopp_lt_compat in Hbelow. rewrite !Qopp_involutive in Hbelow.
    exact Hbelow. }
  assert (Hhigh : forall i, j <= i < length vals -> (nth i vals 0 <= c)%Q).
  { intros i Hi. specialize (Habove i Hi). rewrite nth_map_Qopp in Habove.
    apply Qopp_le_compat in Habove. rewrite !Qopp_involutive in Habove.
    exact Habove. }
  assert (Hj : j <= idx).
  { destruct (le_lt_dec j idx) as [|Hlt]; auto. exfalso.
    specialize (Hlow idx Hlt). rewrite Hnth in Hlow.
    exact (Qlt_irrefl _ Hlow). }
  exists j. repeat split; auto.
  apply Qle_antisym.
  - apply Hhigh. lia.
  - rewrite <- Hnth. apply Hd. lia.
Qed.

End Bisect.

Import Numpy Pandas Slide.

(** ** The cutoff slide *)

(** C2, as the code has it.  On a column sorted descending and a raw cutoff
    index inside it, the slide returns the first position that holds the
    cutoff value: it never moves the index down the column, no earlier
    position holds the cutoff value, and a cell lies before the slid index
    exactly when its value is above the cutoff value, so cells of equal
    expression get the same call whatever their order. *)
Theorem slide_reaches_first_position_of_cutoff_value :
  forall (vals : list Q) (idx : nat),
    descending vals ->
    idx < length vals ->
    exists c j,
      cutoff_value vals idx = Ok c /\
      cutoff_slide vals idx = Ok j /\
      j <= idx /\
      (nth j vals 0 == c)%Q /\
      (forall i, i < j -> ~ (nth i vals 0 == c)%Q) /\
      (forall i, i < length vals -> (i < j <-> (c < nth i vals 0)%Q)).
Proof.
  intros vals idx Hd Hidx.
  destruct (nth_error vals idx) as [c|] eqn:Hc.
  2:{ apply nth_error_None in Hc. lia. }
  destruct (cutoff_slide_bounds vals idx c Hd Hc) as (j & Hs & Hj & Heq & Hlow & Hhigh).
  exists c, j. repeat split; auto.
  - unfold cutoff_value. rewrite Hc. reflexivity.
  - intros i Hi E. specialize (Hlow i Hi). rewrite E in Hlow.
    exact (Qlt_irrefl _ Hlow).
  - intros Hlt. destruct (le_lt_dec j i) as [Hge|]; auto. exfalso.
    exact (Qlt_not_le _ _ Hlt (Hhigh i (conj Hge H))).
Qed.

Lemma slide_reaches_first_position_witness :
  descending slide_example /\
  4 < length slide_example /\
  exists c j,
    cutoff_value slide_example 4 = Ok c /\
    cutoff_slide slide_example 4 = Ok j /\
    j <= 4 /\
    (nth j slide_example 0 == c)%Q /\
    (forall i, i < j -> ~ (nth i slide_example 0 == c)%Q) /\
    (forall i, i < length slide_example ->
               (i < j <-> (c < nth i slide_example 0)%Q)).
Proof.
  assert (Hd : descending slide_example)
    by (apply descendingb_sound; reflexivity).
  assert (Hi : 4 < length slide_example) by (simpl; lia).
  split; [exact Hd|]. split; [exact Hi|].
  exact (slide_reaches_first_position_of_cutoff_value slide_example 4 Hd Hi).
Defined.

(** C2, as stated, fails: on [5.3 1.2 0 0 0 0] with raw index 4 the cutoff
    value is 0 and the slide returns 2, while the last position holding 0
    is 5. *)
Lemma slide_is_not_last_position :
  ~ (forall (vals : list Q) (idx : nat) (c : Q) (j : nat),
        descending vals ->
        cutoff_value vals idx = Ok c ->
        cutoff_slide vals idx = Ok j ->
        last_position_holding vals c = Some j).
Proof.
  intro H.
  assert (Hd : descending slide_example)
    by (apply descendingb_sound; reflexivity).
  specialize (H slide_example 4 0%Q 2 Hd eq_refl eq_refl).
  discriminate H.
Qed.

(** C6.  On a column sorted descending, a slid index is a fixed point of the
    slide. *)
Theorem slide_idempotent :
  forall (vals : list Q) (idx j : nat),
    descending vals ->
    cutoff_slide vals idx = Ok j ->
    cutoff_slide vals j = Ok j.
Proof.
  intros vals idx j Hd Hs.
  destruct (nth_error vals idx) as [c|] eqn:Hc.
  2:{ unfold cutoff_slide, cutoff_value in Hs. rewrite Hc in Hs.
      discriminate Hs. }
  destruct (cutoff_slide_bounds vals idx c Hd Hc)
    as (j1 & Hs1 & Hj1 & Heq1 & Hlow1 & _).
  rewrite Hs in Hs1. injection Hs1 as <-.
  assert (Hidx : idx < length vals) by (apply nth_error_Some; congruence).
  destruct (nth_error vals j) as [c'|] eqn:Hc'.
  2:{ apply nth_error_None in Hc'. lia. }
  assert (Hn : nth j vals 0%Q = c') by (apply nth_error_nth; exact Hc').
  destruct (cutoff_slide_bounds vals j c' Hd Hc') as (j2 & Hs2 & Hj2 & Heq2 & _).
  rewrite Hs2. f_equal.
  destruct (le_lt_dec j j2) as [|Hlt]; [lia|]. exfalso.
  specialize (Hlow1 j2 Hlt). rewrite Heq2, <- Hn, Heq1 in Hlow1.
  exact (Qlt_irrefl _ Hlow1).
Qed.

Lemma slide_idempotent_witness :
  descending slide_example /\
  cutoff_slide slide_example 4 = Ok 2 /\
  cutoff_slide slide_example 2 = Ok 2.
Proof.
  assert (Hd : descending slide_example)
    by (apply descendingb_sound; reflexivity).
  assert (Hs : cutoff_slide slide_example 4 = Ok 2) by reflexivity.
  split; [exact Hd|]. split; [exact Hs|].
  exact (slide_idempotent slide_example 4 2 Hd Hs).
Defined.

(** ** Sorting *)

Section Sorting.
Context {A : Type}.
Variable key : A -> Q.

Lemma insert_by_perm (x : A) (l : list A) :
  Permutation (insert_by key x l) (x :: l).
Proof.
  induction l as [|y l IH]; simpl; [reflexivity|].
  destruct (Qle_bool (key x) (key y)); [reflexivity|].
  rewrite IH. apply perm_swap.
Qed.

Lemma sort_values_perm (t : list A) : Permutation (sort_values key t) t.
Proof.
  induction t as [|x t IH]; simpl; [reflexivity|].
  rewrite insert_by_perm. constructor. exact IH.
Qed.

Lemma sort_values_length (t : list A) :
  length (sort_values key t) = length t.
Proof. apply Permutation_length, sort_values_perm. Qed.

Lemma insert_by_sorted (x : A) (l : list A) :
  StronglySorted (key_le key) l -> StronglySorted (key_le key) (insert_by key x l).
Proof.
  induction l as [|y l IH]; intro Hs; simpl.
  - constructor; constructor.
  - apply StronglySorted_inv in Hs. destruct Hs as [Hl Hy].
    destruct (Qle_bool (key x) (key y)) eqn:E.
    + apply Qle_bool_iff in E.
      constructor; [constructor; assumption|].
      constructor; [exact E|].
      eapply Forall_impl; [|exact Hy].
      intros z Hz. unfold key_le in *. eapply Qle_trans; eassumption.
    + apply Qle_bool_false in E.
      constructor; [apply IH; exact Hl|].
      eapply Permutation_Forall.
      * symmetry. apply insert_by_perm.
      * constructor; [apply Qlt_le_weak; exact E | exact Hy].
Qed.

Lemma sort_values_sorted (t : list A) :
  StronglySorted (key_le key) (sort_values key t).
Proof.
  induction t as [|x t IH]; simpl; [constructor|].
  apply insert_by_sorted. exact IH.
Qed.



Lemma StronglySorted_snoc (R : A -> A -> Prop) (l : list A) (a : A) :
  StronglySorted R l -> Forall (fun x => R x a) l ->
  StronglySorted R (l ++ [a]).
Proof.
  induction l as [|y l IH]; intros Hs Hf; simpl.
  - constructor; constructor.
  - apply StronglySorted_inv in Hs. destruct Hs as [Hl Hy].
    inversion Hf; subst.
    constructor; [apply IH; assumption|].
    apply Forall_app. split; [exact Hy|]. constructor; [assumption|constructor].
Qed.

Lemma StronglySorted_rev (R : A -> A -> Prop) (l : list A) :
  StronglySorted R l -> StronglySorted (fun a b => R b a) (rev l).
Proof.
  induction 1 as [|a l Hl IH Ha]; simpl; [constructor|].
  apply StronglySorted_snoc; [exact IH|].
  apply Forall_rev. exact Ha.
Qed.

Lemma sort_values_desc_perm (t : list A) :
  Permutation (sort_values_desc key t) t.
Proof.
  unfold sort_values_desc.
  rewrite <- Permutation_rev, sort_values_perm, <- Permutation_rev.
  reflexivity.
Qed.

Lemma sort_values_desc_sorted (t : list A) :
  StronglySorted (key_ge key) (sort_values_desc key t).
Proof.
  unfold sort_values_desc.
  apply (StronglySorted_rev (key_le key)). apply sort_values_sorted.
Qed.

End Sorting.

(** ** Positions *)

Section Positions.
Context {A : Type}.


Lemma StronglySorted_nth_error (R : A -> A -> Prop) (t : list A) :
  StronglySorted R t ->
  forall a b x y, a < b ->
    nth_error t a = Some x -> nth_error t b = Some y -> R x y.
Proof.
  induction 1 as [|z t Ht IH Hz]; intros a b x y Hab Ha Hb.
  - destruct a; discriminate.
  - destruct b as [|b]; [lia|]. simpl in Hb.
    destruct a as [|a]; simpl in Ha.
    + injection Ha as <-. rewrite Forall_forall in Hz. apply Hz.
      eapply nth_error_In. exact Hb.
    + apply (IH a b); auto. lia.
Qed.

Lemma combine_fst {B : Type} (l : list A) (l' : list B) :
  length l = length l' -> map fst (combine l l') = l.
Proof.
  revert l'. induction l as [|a l IH]; intros [|b l'] H; simpl in *;
    try discriminate; [reflexivity|].
  f_equal. apply IH. lia.
Qed.


Lemma assign_position_fst (t : list A) : map fst (assign_position t) = t.
Proof.
  unfold assign_position. apply combine_fst.
  rewrite length_seq. reflexivity.
Qed.


Lemma assign_position_length (t : list A) :
  length (assign_position t) = length t.
Proof.
  rewrite <- (length_map fst), assign_position_fst. reflexivity.
Qed.


End Positions.

Import Main.

(** ** Rank fusion of the singleton table *)




(** ** The pair table *)





(** ** Trimming *)

Lemma head_nonneg {A : Type} (n : Z) (t : list A) :
  (0 <= n)%Z -> head n t = firstn (Z.to_nat n) t.
Proof.
  intro H. unfold head. apply Z.leb_le in H. rewrite H. reflexivity.
Qed.

(** C7, as the code has it.  For a Trim value [N >= 0], the pair table, the
    final pair ranking, the triple table (K = 3) and the quadruple table
    (K >= 4) are written as the first [N] rows of the sorted, ranked table,
    in its order: all rows when it has fewer than [N].  The singleton table
    is written whole. *)
Theorem trim_keeps_the_first_rows :
  forall (K Trim : Z) (merged : list SingRow) (pair : list ComboRow)
         (ranked_pair : list (ComboRow * nat)) (trips quads_fin : list ComboRow),
    (0 <= Trim)%Z ->
    let N := Z.to_nat Trim in
    let e := process_exports K Trim merged pair ranked_pair trips quads_fin in
    pair_HG_stat_ranked_csv e = firstn N (pair_out_initial pair) /\
    length (pair_HG_stat_ranked_csv e) = Nat.min N (length pair) /\
    pair_final_ranking_csv e = firstn N ranked_pair /\
    length (pair_final_ranking_csv e) = Nat.min N (length ranked_pair) /\
    trips_csv e
    = (if (K =? 3)%Z then Some (firstn N (trips_output trips)) else None) /\
    quads_csv e
    = (if (K >=? 4)%Z then Some (firstn N (quads_final quads_fin))
       else None) /\
    singleton_csv e = sing_output merged /\
    main_Trim default_Trim = 2000%Z /\
    main_Trim None = 2000%Z.
Proof.
  intros K Trim merged pair ranked_pair trips quads_fin HT N e.
  unfold e, process_exports, pair_out_print. simpl.
  rewrite !head_nonneg by exact HT. fold N.
  repeat split.
  - rewrite length_firstn. unfold pair_out_initial.
    rewrite assign_position_length, sort_values_length. reflexivity.
  - apply length_firstn.
Qed.

Lemma trim_keeps_the_first_rows_witness :
  (0 <= 2)%Z /\
  pair_HG_stat_ranked_csv
    (process_exports 3 2 fusion_example pair_example [] pair_example [])
  = firstn 2 (pair_out_initial pair_example) /\
  length (pair_HG_stat_ranked_csv
            (process_exports 3 2 fusion_example pair_example [] pair_example []))
  = 2.
Proof.
  assert (H : (0 <= 2)%Z) by lia.
  split; [exact H|].
  destruct (trim_keeps_the_first_rows 3 2 fusion_example pair_example []
              pair_example [] H) as (H1 & H2 & _).
  split; [exact H1 | exact H2].
Defined.

(** C7, as stated, fails on the singleton table: with Trim = 1 its three rows
    are all written.  A negative Trim cuts rows off the end instead: with
    Trim = -1 two of three pair rows are written. *)
Lemma trim_does_not_cut_the_singleton_table :
  length (singleton_csv
            (process_exports 2 1 fusion_example pair_example [] [] [])) = 3 /\
  length (pair_HG_stat_ranked_csv
            (process_exports 2 (-1) fusion_example pair_example [] [] [])) = 2.
Proof.
  split; reflexivity.
Qed.

(** ** The maximum combination order *)

(** C10, as the code has it.  Without a K the run takes 2; a supplied K is
    cut down to 4 and otherwise kept, so the run sees K <= 4, and one of
    2, 3, 4 when the supplied K is at least 2. *)
Theorem main_K_clamped_above :
  forall K : option Z,
    main_K None = 2%Z /\
    (forall k, main_K (Some k) = Z.min k 4) /\
    (main_K K <= 4)%Z /\
    (forall k, (2 <= k)%Z -> In (main_K (Some k)) [2; 3; 4]%Z).
Proof.
  intro K.
  assert (Hmin : forall k, main_K (Some k) = Z.min k 4).
  { intro k. unfold main_K. destruct (k >? 4)%Z eqn:E.
    - apply Z.gtb_lt in E. lia.
    - rewrite Z.gtb_ltb in E. apply Z.ltb_ge in E. lia. }
  split; [reflexivity|]. split; [exact Hmin|]. split.
  - destruct K as [k|]; [rewrite Hmin; lia | unfold main_K; simpl; lia].
  - intros k Hk. rewrite Hmin. simpl.
    assert (Z.min k 4 = 2 \/ Z.min k 4 = 3 \/ Z.min k 4 = 4)%Z by lia.
    intuition.
Qed.

(** C10, as stated, fails: a supplied K of 1 reaches the cluster runs as 1. *)
Lemma main_K_below_2 :
  main_K (Some 1%Z) = 1%Z /\ ~ In (main_K (Some 1%Z)) [2; 3; 4]%Z.
Proof.
  split; [reflexivity|].
  simpl. intros [H | [H | [H | []]]]; discriminate H.
Qed.

(** ** Abbreviation *)

Lemma combinations_members {A : Type} (k : nat) (l : list A) :
  forall tup g, In tup (Enumerator.combinations k l) -> In g tup -> In g l.
Proof.
  revert k. induction l as [|x l IH]; intros k tup g Ht Hg.
  - destruct k; simpl in Ht.
    + destruct Ht as [<- | []]. exact Hg.
    + contradiction.
  - destruct k as [|k]; simpl in Ht.
    + destruct Ht as [<- | []]. contradiction.
    + apply in_app_or in Ht. destruct Ht as [Ht | Ht].
      * apply in_map_iff in Ht. destruct Ht as (tup' & <- & Ht').
        destruct Hg as [<- | Hg]; [left; reflexivity|].
        right. exact (IH k tup' g Ht' Hg).
      * right. exact (IH (S k) tup g Ht Hg).
Qed.

(** C4.  On an abbreviation request (a non-empty [abbrev]), the genes handed
    to the triple and quadruple enumerators are the names of the first 150
    rows of the singleton table sorted ascending by mHG statistic: 150 genes
    at most whatever the number of genes, all of them when there are fewer;
    and every gene of every enumerated tuple is one of them. *)
Theorem abbreviation_keeps_top_150 :
  forall (abbrev : AbbrevArg) (xlmhg : list SingRow) (n : nat),
    len_abbrev abbrev = Ok n ->
    0 < n ->
    exists sorted genes,
      Permutation sorted xlmhg /\
      StronglySorted (fun a b => (mHG_stat a <= mHG_stat b)%Q) sorted /\
      genes = map gene_1 (firstn 150 sorted) /\
      trips_list abbrev xlmhg = Ok (Some genes) /\
      length genes = Nat.min 150 (length xlmhg) /\
      (forall k, exists tuples,
          abbreviated_tuples k abbrev xlmhg = Ok tuples /\
          forall tup g, In tup tuples -> In g tup -> In g genes).
Proof.
  intros abbrev xlmhg n Hlen Hn.
  exists (sort_values mHG_stat xlmhg).
  exists (map gene_1 (firstn 150 (sort_values mHG_stat xlmhg))).
  assert (Htl : trips_list abbrev xlmhg
                = Ok (Some (map gene_1
                              (firstn 150 (sort_values mHG_stat xlmhg))))).
  { unfold trips_list. rewrite Hlen. unfold bind.
    apply Nat.ltb_lt in Hn. rewrite Hn, firstn_map. reflexivity. }
  split; [apply sort_values_perm|].
  split; [apply (sort_values_sorted mHG_stat)|].
  split; [reflexivity|].
  split; [exact Htl|].
  split.
  - rewrite length_map, length_firstn, sort_values_length. reflexivity.
  - intro k. eexists. split.
    + unfold abbreviated_tuples. rewrite Htl. simpl. reflexivity.
    + apply combinations_members.
Qed.

Lemma abbreviation_keeps_top_150_witness :
  len_abbrev (AbbrevStr "3") = Ok 1 /\
  0 < 1 /\
  exists sorted genes,
    Permutation sorted fusion_example /\
    StronglySorted (fun a b => (mHG_stat a <= mHG_stat b)%Q) sorted /\
    genes = map gene_1 (firstn 150 sorted) /\
    trips_list (AbbrevStr "3") fusion_example = Ok (Some genes) /\
    length genes = Nat.min 150 (length fusion_example) /\
    (forall k, exists tuples,
        abbreviated_tuples k (AbbrevStr "3") fusion_example = Ok tuples /\
        forall tup g, In tup tuples -> In g tup -> In g genes).
Proof.
  assert (H1 : len_abbrev (AbbrevStr "3") = Ok 1) by reflexivity.
  assert (H2 : 0 < 1) by lia.
  split; [exact H1|]. split; [exact H2|].
  exact (abbreviation_keeps_top_150 (AbbrevStr "3") fusion_example 1 H1 H2).
Defined.

(** ** [singleton_test] *)

Section SingletonTestFacts.
Variable xlmhg_test : list Z -> option Z -> option Z -> result (Q * nat * Q).
Variable ttest_ind : list Q -> list Q -> option Q * option Q.

Lemma mapM_ok {A B : Type} (f : A -> result B) (l : list A) :
  (forall a, In a l -> exists b, f a = Ok b) ->
  exists bs, mapM f l = Ok bs /\ length bs = length l.
Proof.
  induction l as [|a l IH]; intro H; simpl.
  - exists []. split; reflexivity.
  - destruct (H a (or_introl eq_refl)) as (b & Hb).
    destruct IH as (bs & Hbs & Hl).
    { intros a' Ha'. apply H. right. exact Ha'. }
    exists (b :: bs). rewrite Hb, Hbs. simpl. split; [reflexivity|].
    rewrite Hl. reflexivity.
Qed.

Lemma test_gene_ok (cells : Hgmd.Cells) (clus : Z) (X L : option Z)
  (g : string * list Q) (stat : Q) (idx : nat) (pval : Q) :
  xlmhg_test (Hgmd.membership clus (Hgmd.sorted_exp cells g)) X L
  = Ok (stat, idx, pval) ->
  idx < length (Hgmd.sorted_exp cells g) ->
  exists r, Hgmd.test_gene xlmhg_test ttest_ind cells clus X L g = Ok r.
Proof.
  intros Hx Hidx. unfold Hgmd.test_gene. rewrite Hx. simpl.
  destruct (nth_error (map snd (Hgmd.sorted_exp cells g)) idx) as [c|] eqn:Hc.
  2:{ apply nth_error_None in Hc. rewrite length_map in Hc. lia. }
  unfold cutoff_slide, cutoff_value. rewrite Hc. simpl.
  destruct (ttest_ind _ _) as [ts tp]. eexists. reflexivity.
Qed.

Lemma sort_values_nan_length {A : Type} (key : A -> option Q) (t : list A) :
  length (sort_values_nan key t) = length t.
Proof.
  unfold sort_values_nan. rewrite length_app, sort_values_length.
  induction t as [|x t IH]; simpl; [reflexivity|].
  destruct (key x); simpl; lia.
Qed.

(** The column the slide works on is sorted descending. *)
Lemma sorted_descending {A : Type} (key : A -> Q) (l : list A) :
  StronglySorted (key_ge key) l -> descending (map key l).
Proof.
  intros Hs i j [Hij Hj]. rewrite length_map in Hj.
  destruct (nth_error l i) as [x|] eqn:Hx.
  2:{ apply nth_error_None in Hx. lia. }
  destruct (nth_error l j) as [y|] eqn:Hy.
  2:{ apply nth_error_None in Hy. lia. }
  rewrite (nth_error_nth _ _ 0%Q (map_nth_error key _ _ Hx)).
  rewrite (nth_error_nth _ _ 0%Q (map_nth_error key _ _ Hy)).
  destruct (Nat.eq_dec i j) as [->|Hne].
  - assert (x = y) by congruence. subst. apply Qle_refl.
  - apply (StronglySorted_nth_error (key_ge key) l Hs i j x y); auto. lia.
Qed.

Lemma sorted_exp_descending (cells : Hgmd.Cells) (g : string * list Q) :
  descending (map snd (Hgmd.sorted_exp cells g)).
Proof.
  apply sorted_descending. apply sort_values_desc_sorted.
Qed.

(** The cutoff columns of a row are the cutoff value at the raw index and
    the slide of the raw index. *)
Lemma test_gene_cutoff (cells : Hgmd.Cells) (clus : Z) (X L : option Z)
  (g : string * list Q) (r : Hgmd.SingletonRow) :
  Hgmd.test_gene xlmhg_test ttest_ind cells clus X L g = Ok r ->
  exists stat idx pval,
    xlmhg_test (Hgmd.membership clus (Hgmd.sorted_exp cells g)) X L
    = Ok (stat, idx, pval) /\
    cutoff_value (map snd (Hgmd.sorted_exp cells g)) idx
    = Ok (Hgmd.mHG_cutoff_value r) /\
    cutoff_slide (map snd (Hgmd.sorted_exp cells g)) idx
    = Ok (Hgmd.mHG_cutoff_index r).
Proof.
  unfold Hgmd.test_gene.
  destruct (xlmhg_test _ X L) as [[[stat idx] pval]|e]; simpl; [|discriminate].
  destruct (cutoff_value _ idx) as [c|e] eqn:Hc; simpl; [|discriminate].
  destruct (cutoff_slide _ idx) as [j|e] eqn:Hj; simpl; [|discriminate].
  destruct (ttest_ind _ _) as [ts tp]. intro H. injection H as <-. simpl.
  exists stat, idx, pval. repeat split; [exact Hc | exact Hj].
Qed.

End SingletonTestFacts.

(** C8, what the code does.  [singleton_test] checks none of its arguments:
    whatever the cluster label, X and L, it returns a table with one row per
    gene as soon as the XL-mHG call returns, for each gene, a cutoff inside
    the column.  An error can only come out of the library calls. *)
Theorem singleton_test_checks_nothing :
  forall (xlmhg_test : list Z -> option Z -> option Z -> result (Q * nat * Q))
         (ttest_ind : list Q -> list Q -> option Q * option Q)
         (cells : Hgmd.Cells) (clus : Z) (X L : option Z),
    (forall g, In g (Hgmd.gene_columns cells) ->
       exists stat idx pval,
         xlmhg_test (Hgmd.membership clus (Hgmd.sorted_exp cells g)) X L
         = Ok (stat, idx, pval) /\
         idx < length (Hgmd.sorted_exp cells g)) ->
    exists table,
      Hgmd.singleton_test xlmhg_test ttest_ind cells clus X L = Ok table /\
      length table = length (Hgmd.gene_columns cells).
Proof.
  intros xlmhg_test ttest_ind cells clus X L H.
  destruct (mapM_ok (Hgmd.test_gene xlmhg_test ttest_ind cells clus X L)
              (Hgmd.gene_columns cells)) as (rows & Hrows & Hlen).
  { intros g Hg. destruct (H g Hg) as (stat & idx & pval & Hx & Hidx).
    exact (test_gene_ok xlmhg_test ttest_ind cells clus X L g stat idx pval
             Hx Hidx). }
  unfold Hgmd.singleton_test. rewrite Hrows. simpl.
  eexists. split; [reflexivity|].
  rewrite sort_values_nan_length. unfold Pandas.rank, rank_nan.
  repeat (rewrite ?length_combine, ?length_map). lia.
Qed.

Lemma singleton_test_checks_nothing_witness :
  ~ In 7%Z (Hgmd.cluster cells_example) /\
  exists table,
    Hgmd.singleton_test xlmhg_trivial ttest_nan cells_example 7
      (Some 1%Z) (Some 3%Z) = Ok table /\
    length table = length (Hgmd.gene_columns cells_example).
Proof.
  split.
  - simpl. intros [H | [H | [H | []]]]; discriminate H.
  - apply (singleton_test_checks_nothing xlmhg_trivial ttest_nan
             cells_example 7 (Some 1%Z) (Some 3%Z)).
    intros g Hg. exists 1%Q, 0, 1%Q. split; [reflexivity|].
    simpl in Hg. destruct Hg as [<- | [<- | []]]; vm_compute; lia.
Defined.

(** ** [pair_test] *)

(** C1, what the code does.  [pair_test] returns a table without rows
    whatever it is given: the cells of the sample input hold the gene pair
    (A, B), and the table returned has no row for it. *)
Theorem pair_test_returns_no_rows :
  (forall cells singleton clus min_exp_ratio,
      Hgmd.pair_test cells singleton clus min_exp_ratio = []) /\
  Enumerator.combinations 2 (map fst (Hgmd.gene_columns cells_example))
  = [["A"; "B"]%string] /\
  Hgmd.pair_test cells_example [] 1 (4 # 10) = [].
Proof.
  split; [reflexivity|]. split; reflexivity.
Qed.

(** ** [find_TP_TN] *)

Example find_TP_TN_on_sample_heap :
  Hgmd.find_TP_TN 0 1 2 1 heap_example = (Hgmd.PyNone, heap_example).
Proof. reflexivity. Qed.

(** C9.  [find_TP_TN] returns [None] and leaves the heap as it found it:
    every frame, the three it is handed among them, keeps its columns and
    their contents; no column is added. *)
Theorem find_TP_TN_changes_nothing :
  forall (cells singleton pair : nat) (clus : Z) (h : Hgmd.Heap),
    fst (Hgmd.find_TP_TN cells singleton pair clus h) = Hgmd.PyNone /\
    snd (Hgmd.find_TP_TN cells singleton pair clus h) = h /\
    (forall a,
        Hgmd.deref (snd (Hgmd.find_TP_TN cells singleton pair clus h)) a
        = Hgmd.deref h a) /\
    (forall a,
        option_map Hgmd.column_names
          (Hgmd.deref (snd (Hgmd.find_TP_TN cells singleton pair clus h)) a)
        = option_map Hgmd.column_names (Hgmd.deref h a)).
Proof.
  intros. repeat split; reflexivity.
Qed.

(** * Further properties *)

Import ReadData MainLoop.

(** ** The cluster loop of [main] *)

Lemma groups_concat (n cores : nat) (clusters : list Z) :
  length clusters <= n * cores ->
  concat (groups n cores clusters) = clusters.
Proof.
  revert clusters. induction n as [|n IH]; intros clusters H; simpl.
  - destruct clusters; [reflexivity | simpl in H; lia].
  - rewrite IH.
    + apply firstn_skipn.
    + rewrite length_skipn. simpl in H. lia.
Qed.

Lemma groups_length (n cores : nat) (clusters : list Z) :
  length (groups n cores clusters) = n.
Proof.
  revert clusters. induction n as [|n IH]; intro clusters; simpl;
    [reflexivity | rewrite IH; reflexivity].
Qed.

Lemma groups_full (n cores : nat) (clusters : list Z) :
  0 < cores ->
  (n - 1) * cores < length clusters ->
  Forall (fun g => g <> [] /\ length g <= cores) (groups n cores clusters).
Proof.
  intro Hc. revert clusters.
  induction n as [|n IH]; intros clusters H; simpl; [constructor|].
  constructor.
  - split.
    + destruct clusters as [|c rest]; [simpl in H; lia|].
      destruct cores; [lia|]. simpl. discriminate.
    + rewrite length_firstn. lia.
  - destruct n as [|n]; [constructor|].
    apply IH. rewrite length_skipn. simpl in H. simpl. lia.
Qed.

Lemma ceil_div_bounds (n c : Z) :
  (0 < c)%Z -> (0 <= n)%Z ->
  (n <= ceil_div n c * c)%Z /\ ((ceil_div n c - 1) * c < n)%Z /\
  (0 <= ceil_div n c)%Z.
Proof.
  intros Hc Hn. unfold ceil_div.
  pose proof (Z.div_mod (n + c - 1) c ltac:(lia)) as Hd.
  pose proof (Z.mod_pos_bound (n + c - 1) c Hc) as Hm.
  assert (0 <= (n + c - 1) / c)%Z by (apply Z.div_pos; lia).
  repeat split; nia.
Qed.

Lemma main_groups_return (C : option Z) (clusters : list Z) :
  clusters <> [] -> C <> Some 0%Z ->
  exists gs,
    main_groups C clusters = Exc.Return gs /\
    concat gs = clusters /\
    Forall (fun g => g <> [] /\ (Z.of_nat (length g) <= main_C C)%Z) gs /\
    Z.of_nat (length gs)
    = ceil_div (Z.of_nat (length clusters))
        (Z.min (main_C C) (Z.of_nat (length clusters))).
Proof.
  intros Hne HC.
  assert (Hlen : (0 < Z.of_nat (length clusters))%Z).
  { destruct clusters; [congruence | simpl; lia]. }
  assert (HCpos : (0 < main_C C)%Z).
  { destruct C as [c|]; simpl; [|lia].
    assert (c <> 0%Z) by congruence. lia. }
  unfold main_groups.
  set (len := Z.of_nat (length clusters)) in *.
  set (cores := if (main_C C >? len)%Z then len else main_C C).
  assert (Hcores : cores = Z.min (main_C C) len).
  { unfold cores. destruct (main_C C >? len)%Z eqn:E.
    - apply Z.gtb_lt in E. lia.
    - rewrite Z.gtb_ltb in E. apply Z.ltb_ge in E. lia. }
  assert (Hpos : (0 < cores)%Z) by lia.
  destruct (cores =? 0)%Z eqn:E0; [apply Z.eqb_eq in E0; lia|].
  destruct (ceil_div_bounds len cores Hpos ltac:(lia)) as (Hup & Hlow & Hg).
  eexists. split; [reflexivity|].
  split; [|split].
  - apply groups_concat. fold len. nia.
  - eapply Forall_impl; [|apply groups_full].
    + intros g [Hg1 Hg2]. split; [exact Hg1|]. lia.
    + lia.
    + fold len.
      assert (0 < Z.to_nat (ceil_div len cores)) by nia.
      nia.
  - rewrite groups_length, <- Hcores. lia.
Qed.

(** X1.  With at least one cluster and a core count other than 0, [main]
    starts every cluster exactly once and in order: the batches, put end to
    end, are the list of clusters; no batch is empty or larger than the core
    count; and there are ceil(len / min(C, len)) of them. *)
Theorem main_groups_partition :
  forall (C : option Z) (clusters : list Z),
    clusters <> [] ->
    C <> Some 0%Z ->
    exists gs,
      main_groups C clusters = Exc.Return gs /\
      concat gs = clusters /\
      Forall (fun g => g <> [] /\ (Z.of_nat (length g) <= main_C C)%Z) gs /\
      Z.of_nat (length gs)
      = ceil_div (Z.of_nat (length clusters))
          (Z.min (main_C C) (Z.of_nat (length clusters))).
Proof.
  exact main_groups_return.
Qed.

Lemma main_groups_partition_witness :
  [1; 2; 3; 4; 5]%Z <> [] /\
  Some (-2)%Z <> Some 0%Z /\
  main_groups (Some (-2)%Z) [1; 2; 3; 4; 5]%Z
  = Exc.Return [[1; 2]; [3; 4]; [5]]%Z.
Proof.
  assert (H1 : [1; 2; 3; 4; 5]%Z <> []) by discriminate.
  assert (H2 : Some (-2)%Z <> Some 0%Z) by discriminate.
  split; [exact H1|]. split; [exact H2|].
  destruct (main_groups_partition (Some (-2)%Z) [1; 2; 3; 4; 5]%Z H1 H2)
    as (gs & Hgs & _).
  reflexivity.
Defined.

(** X2.  [main] ends in a [ZeroDivisionError] exactly when the core count
    given is 0 or there is no cluster at all: a cluster series without rows
    is not skipped, it makes the run fail. *)
Theorem main_groups_zero_division :
  forall (C : option Z) (clusters : list Z),
    main_groups C clusters = Exc.Throw Exc.ZeroDivisionError <->
    (C = Some 0%Z \/ clusters = []).
Proof.
  intros C clusters. split.
  - intro H.
    destruct clusters as [|c rest]; [right; reflexivity|]. left.
    destruct C as [k|].
    + destruct (Z.eq_dec k 0) as [->|Hk]; [reflexivity|]. exfalso.
      destruct (main_groups_return (Some k) (c :: rest)) as (gs & Hgs & _);
        [discriminate | congruence |].
      rewrite Hgs in H. discriminate H.
    + exfalso.
      destruct (main_groups_return None (c :: rest)) as (gs & Hgs & _);
        [discriminate | discriminate |].
      rewrite Hgs in H. discriminate H.
  - intros [-> | ->].
    + unfold main_groups. simpl main_C.
      destruct (0 >? Z.of_nat (length clusters))%Z eqn:E.
      * apply Z.gtb_lt in E. lia.
      * reflexivity.
    + unfold main_groups. simpl length. simpl Z.of_nat.
      destruct (main_C C >? 0)%Z eqn:E; [reflexivity|].
      rewrite Z.gtb_ltb in E. apply Z.ltb_ge in E.
      assert (main_C C = 0%Z) by (destruct C; simpl in *; lia).
      rewrite H. reflexivity.
Qed.

(** ** Dropping rows by label *)

Section DropFacts.
Context {V : Type}.

Lemma filter_twice {A : Type} (f g : A -> bool) (l : list A) :
  filter f (filter g l) = filter (fun x => g x && f x) l.
Proof.
  induction l as [|x l IH]; simpl; [reflexivity|].
  destruct (g x); simpl; [destruct (f x)|]; rewrite IH; reflexivity.
Qed.

Lemma has_label_In (l : string) (s : Labelled V) :
  has_label l s = true <-> In l (labels s).
Proof.
  unfold has_label, labels. rewrite existsb_exists, in_map_iff. split.
  - intros (p & Hp & E). apply String.eqb_eq in E. exists p. auto.
  - intros (p & E & Hp). exists p. split; [exact Hp|].
    apply String.eqb_eq. exact E.
Qed.


Lemma drop_present (l : string) (s : Labelled V) :
  In l (labels s) ->
  drop l s = Exc.Return (filter (fun p => negb (String.eqb (fst p) l)) s).
Proof.
  intro H. unfold drop. apply has_label_In in H. rewrite H. reflexivity.
Qed.

Lemma drop_absent (l : string) (s : Labelled V) :
  ~ In l (labels s) -> drop l s = Exc.Throw Exc.KeyError.
Proof.
  intro H. unfold drop. destruct (has_label l s) eqn:E; [|reflexivity].
  apply has_label_In in E. contradiction.
Qed.

Lemma labels_filter_neq (l l' : string) (s : Labelled V) :
  In l' (labels (filter (fun p => negb (String.eqb (fst p) l)) s)) <->
  In l' (labels s) /\ l' <> l.
Proof.
  unfold labels. rewrite !in_map_iff. split.
  - intros (p & <- & Hp). apply filter_In in Hp. destruct Hp as [Hp E].
    apply negb_true_iff, String.eqb_neq in E. split; [|exact E].
    exists p. auto.
  - intros [(p & <- & Hp) Hne]. exists p. split; [reflexivity|].
    apply filter_In. split; [exact Hp|].
    apply negb_true_iff, String.eqb_neq. exact Hne.
Qed.

(** The walk fails as soon as it meets a label to drop that the table no
    longer holds. *)
Lemma drop_unlisted_missing (names walk : list string) (s : Labelled V) :
  (exists l, In l walk /\ listed names l = false /\ ~ In l (labels s)) ->
  drop_unlisted names walk s = Exc.Throw Exc.KeyError.
Proof.
  revert s. induction walk as [|h walk IH]; intros s (l & Hl & Hu & Hs).
  - contradiction.
  - simpl. destruct (listed names h) eqn:Eh.
    + apply IH. exists l. repeat split; auto.
      destruct Hl as [-> | Hl]; [congruence | exact Hl].
    + destruct (in_dec string_dec h (labels s)) as [Hin | Hout].
      * rewrite (drop_present h s Hin). simpl. apply IH.
        exists l. split; [|split; [exact Hu|]].
        -- destruct Hl as [-> | Hl]; [contradiction | exact Hl].
        -- rewrite labels_filter_neq. tauto.
      * rewrite (drop_absent h s Hout). reflexivity.
Qed.

Lemma drop_unlisted_ok (names walk : list string) (s : Labelled V) :
  (forall l, In l walk -> listed names l = false -> In l (labels s)) ->
  NoDup (filter (fun l => negb (listed names l)) walk) ->
  drop_unlisted names walk s
  = Exc.Return (filter (fun p => negb (unlisted_in names walk (fst p))) s).
Proof.
  revert s. induction walk as [|h walk IH]; intros s Hall Hnd; simpl.
  - f_equal. symmetry. apply forallb_filter_id. apply forallb_forall.
    intros p _. unfold unlisted_in. simpl. rewrite andb_false_r. reflexivity.
  - simpl in Hnd. destruct (listed names h) eqn:Eh; simpl in Hnd.
    + rewrite IH; auto.
      * f_equal. apply filter_ext. intro p. unfold unlisted_in. simpl.
        destruct (String.eqb (fst p) h) eqn:E; [|reflexivity].
        apply String.eqb_eq in E. rewrite E, Eh. reflexivity.
      * intros l Hl. apply Hall. right. exact Hl.
    + inversion Hnd as [|x U Hx HU]; subst.
      rewrite (drop_present h s (Hall h (or_introl eq_refl) Eh)). simpl.
      rewrite IH; auto.
      * f_equal. rewrite filter_twice. apply filter_ext. intro p.
        unfold unlisted_in. simpl.
        destruct (String.eqb (fst p) h) eqn:E.
        -- apply String.eqb_eq in E. rewrite E, Eh. reflexivity.
        -- reflexivity.
      * intros l Hl Hu. rewrite labels_filter_neq. split.
        -- apply Hall; auto. right. exact Hl.
        -- intros ->. apply Hx. apply filter_In. split; [exact Hl|].
           rewrite Hu. reflexivity.
Qed.

Lemma drop_unlisted_dup (names walk : list string) (s : Labelled V) :
  (forall l, In l walk -> listed names l = false -> In l (labels s)) ->
  ~ NoDup (filter (fun l => negb (listed names l)) walk) ->
  drop_unlisted names walk s = Exc.Throw Exc.KeyError.
Proof.
  revert s. induction walk as [|h walk IH]; intros s Hall Hnd; simpl.
  - exfalso. apply Hnd. constructor.
  - simpl in Hnd. destruct (listed names h) eqn:Eh; simpl in Hnd.
    + apply IH; auto. intros l Hl. apply Hall. right. exact Hl.
    + rewrite (drop_present h s (Hall h (or_introl eq_refl) Eh)). simpl.
      destruct (in_dec string_dec h
                  (filter (fun l => negb (listed names l)) walk)) as [Hin|Hout].
      * apply drop_unlisted_missing. exists h.
        apply filter_In in Hin. destruct Hin as [Hin _].
        split; [exact Hin|]. split; [exact Eh|].
        rewrite labels_filter_neq. tauto.
      * apply IH.
        -- intros l Hl Hu. rewrite labels_filter_neq. split.
           ++ apply Hall; auto. right. exact Hl.
           ++ intros ->. apply Hout. apply filter_In. split; [exact Hl|].
              rewrite Hu. reflexivity.
        -- intro HU. apply Hnd. constructor; assumption.
Qed.

(** Walking the labels of the table itself. *)
Lemma drop_unlisted_self (names : list string) (s : Labelled V) :
  (NoDup (filter (fun l => negb (listed names l)) (labels s)) ->
   drop_unlisted names (labels s) s
   = Exc.Return (filter (fun p => listed names (fst p)) s)) /\
  (~ NoDup (filter (fun l => negb (listed names l)) (labels s)) ->
   drop_unlisted names (labels s) s = Exc.Throw Exc.KeyError).
Proof.
  split; intro H.
  - rewrite drop_unlisted_ok; auto. f_equal. apply filter_ext_in.
    intros p Hp. unfold unlisted_in.
    assert (E : existsb (String.eqb (fst p)) (labels s) = true).
    { apply existsb_exists. exists (fst p). split; [|apply String.eqb_refl].
      unfold labels. apply in_map. exact Hp. }
    rewrite E, andb_true_r, negb_involutive. reflexivity.
  - apply drop_unlisted_dup; auto.
Qed.

End DropFacts.

(** ** Aligning the cluster series and the expression matrix *)


(** X3.  When the marker file and the cluster series do not have the same
    number of cells, [read_data] keeps of the cluster series exactly the
    rows whose cell is a column of the marker file, in their order; but it
    fails with [KeyError] when a cell absent from the marker file comes
    twice in the cluster series. *)
Theorem read_data_align_keeps_known_cells :
  forall (cells : list string) (cls_ser : Labelled Z),
    length cells <> length cls_ser ->
    (NoDup (filter (fun l => negb (listed cells l)) (labels cls_ser)) ->
     read_data_align cells cls_ser
     = Exc.Return (filter (fun p => listed cells (fst p)) cls_ser)) /\
    (~ NoDup (filter (fun l => negb (listed cells l)) (labels cls_ser)) ->
     read_data_align cells cls_ser = Exc.Throw Exc.KeyError).
Proof.
  intros cells cls_ser Hlen. unfold read_data_align.
  apply Nat.eqb_neq in Hlen. rewrite Hlen.
  apply (drop_unlisted_self cells cls_ser).
Qed.

Lemma read_data_align_keeps_known_cells_witness :
  length ["c1"; "c2"]%string
  <> length [("c1", 1); ("c9", 2); ("c2", 1)]%string%Z /\
  read_data_align ["c1"; "c2"]%string [("c1", 1); ("c9", 2); ("c2", 1)]%string%Z
  = Exc.Return [("c1", 1); ("c2", 1)]%string%Z.
Proof.
  assert (H : length ["c1"; "c2"]%string
              <> length [("c1", 1); ("c9", 2); ("c2", 1)]%string%Z)
    by (simpl; lia).
  split; [exact H|].
  destruct (read_data_align_keeps_known_cells ["c1"; "c2"]%string
              [("c1", 1); ("c9", 2); ("c2", 1)]%string%Z H) as [Hok _].
  rewrite Hok; [reflexivity|].
  simpl. constructor; [simpl; tauto | constructor].
Defined.




(** ** Downsampling *)




Lemma count_cluster_nonneg (c : Z) (s : Labelled Z) :
  (0 <= count_cluster c s)%Z.
Proof. unfold count_cluster. lia. Qed.










Section DownsampleFacts.
Variable rng : nat -> nat.
Variable take : Z -> Z.
Variable orig : Labelled Z.
Variable p0 : string * Z.



End DownsampleFacts.

Section DownsampleRun.
Variable ceil_mul : Z -> Z -> Z -> Z.
Variable rng : nat -> nat.


End DownsampleRun.





(** ** More on [singleton_test] *)

Import SingletonFailure.

Lemma mapM_raise {A B : Type} (f : A -> result B) (l : list A) (e : exn) :
  mapM f l = Raise e <->
  exists before a after,
    l = before ++ a :: after /\
    (forall x, In x before -> exists b, f x = Ok b) /\
    f a = Raise e.
Proof.
  induction l as [|x l IH]; simpl.
  - split; [discriminate|].
    intros (before & a & after & H & _). destruct before; discriminate H.
  - split.
    + intro H. destruct (f x) as [b|e'] eqn:Hx; simpl in H.
      * destruct (mapM f l) as [bs|e''] eqn:Hl; simpl in H; [discriminate|].
        injection H as ->.
        destruct (proj1 IH eq_refl) as (before & a & after & -> & Hb & Ha).
        exists (x :: before), a, after. repeat split; auto.
        intros z [<- | Hz]; [exists b; exact Hx | apply Hb; exact Hz].
      * injection H as ->. exists [], x, l. repeat split; auto.
        intros z [].
    + intros (before & a & after & H & Hb & Ha).
      destruct before as [|y before]; simpl in H; injection H as -> ->.
      * rewrite Ha. reflexivity.
      * destruct (Hb y (or_introl eq_refl)) as (b & Hy). rewrite Hy. simpl.
        assert (Hl : mapM f (before ++ a :: after) = Raise e).
        { apply IH. exists before, a, after. repeat split; auto.
          intros z Hz. apply Hb. right. exact Hz. }
        rewrite Hl. reflexivity.
Qed.

Lemma mapM_In {A B : Type} (f : A -> result B) (l : list A) (bs : list B) :
  mapM f l = Ok bs ->
  forall b, In b bs -> exists a, In a l /\ f a = Ok b.
Proof.
  revert bs. induction l as [|x l IH]; intros bs H b Hb; simpl in H.
  - injection H as <-. contradiction.
  - destruct (f x) as [b0|e] eqn:Hx; simpl in H; [|discriminate].
    destruct (mapM f l) as [bs0|e] eqn:Hl; simpl in H; [|discriminate].
    injection H as <-. destruct Hb as [<- | Hb].
    + exists x. split; [left; reflexivity | exact Hx].
    + destruct (IH bs0 eq_refl b Hb) as (a & Ha & Hfa).
      exists a. split; [right; exact Ha | exact Hfa].
Qed.

Lemma mapM_map {A B C : Type} (f : A -> result B) (h : B -> C) (k : A -> C)
  (l : list A) (bs : list B) :
  (forall a b, f a = Ok b -> h b = k a) ->
  mapM f l = Ok bs -> map h bs = map k l.
Proof.
  intro Hhk. revert bs. induction l as [|x l IH]; intros bs H; simpl in H.
  - injection H as <-. reflexivity.
  - destruct (f x) as [b0|e] eqn:Hx; simpl in H; [|discriminate].
    destruct (mapM f l) as [bs0|e] eqn:Hl; simpl in H; [|discriminate].
    injection H as <-. simpl. rewrite (Hhk x b0 Hx), (IH bs0 eq_refl).
    reflexivity.
Qed.

Lemma filter_split_perm {A : Type} (f : A -> bool) (l : list A) :
  Permutation (filter f l ++ filter (fun x => negb (f x)) l) l.
Proof.
  induction l as [|x l IH]; simpl; [reflexivity|].
  destruct (f x); simpl.
  - constructor. exact IH.
  - rewrite <- Permutation_middle. constructor. exact IH.
Qed.

Lemma sort_values_nan_perm {A : Type} (key : A -> option Q) (t : list A) :
  Permutation (sort_values_nan key t) t.
Proof.
  unfold sort_values_nan. rewrite sort_values_perm. apply filter_split_perm.
Qed.

Lemma filter_length_perm {A : Type} (f : A -> bool) (l l' : list A) :
  Permutation l l' -> length (filter f l) = length (filter f l').
Proof.
  induction 1 as [| x l l' _ IH | x y l | l l' l'' _ IH1 _ IH2]; simpl.
  - reflexivity.
  - destruct (f x); simpl; rewrite IH; reflexivity.
  - destruct (f x), (f y); reflexivity.
  - congruence.
Qed.

(** A column cut at [j] by a test that holds before [j] and fails from [j]
    on has [j] entries passing the test. *)
Lemma filter_length_cut (f : Q -> bool) (vals : list Q) (j : nat) :
  j <= length vals ->
  (forall i, i < j -> f (nth i vals 0%Q) = true) ->
  (forall i, j <= i < length vals -> f (nth i vals 0%Q) = false) ->
  length (filter f vals) = j.
Proof.
  revert j. induction vals as [|x vals IH]; intros j Hj Hlow Hhigh.
  - simpl in *. lia.
  - destruct j as [|j].
    + pose proof (Hhigh 0 ltac:(simpl; lia)) as H0. simpl in H0.
      simpl. rewrite H0.
      apply (IH 0); [lia | intros; lia |].
      intros i Hi. apply (Hhigh (S i)). simpl. lia.
    + pose proof (Hlow 0 ltac:(lia)) as H0. simpl in H0.
      simpl. rewrite H0. simpl. f_equal.
      apply IH.
      * simpl in Hj. lia.
      * intros i Hi. apply (Hlow (S i)). lia.
      * intros i Hi. apply (Hhigh (S i)). simpl. lia.
Qed.

Section SingletonTestMore.
Variable xlmhg_test : list Z -> option Z -> option Z -> result (Q * nat * Q).
Variable ttest_ind : list Q -> list Q -> option Q * option Q.

Lemma test_gene_outcome (cells : Hgmd.Cells) (clus : Z) (X L : option Z)
  (g : string * list Q) :
  match gene_error xlmhg_test cells clus X L g with
  | Some e => Hgmd.test_gene xlmhg_test ttest_ind cells clus X L g = Raise e
  | None =>
      exists r, Hgmd.test_gene xlmhg_test ttest_ind cells clus X L g = Ok r
  end.
Proof.
  unfold gene_error, Hgmd.test_gene.
  destruct (xlmhg_test _ X L) as [[[stat idx] pval]|e]; simpl; [|reflexivity].
  destruct (idx <? length (Hgmd.sorted_exp cells g)) eqn:E.
  - apply Nat.ltb_lt in E.
    destruct (nth_error (map snd (Hgmd.sorted_exp cells g)) idx) as [c|] eqn:Hc.
    2:{ apply nth_error_None in Hc. rewrite length_map in Hc. lia. }
    unfold cutoff_slide, cutoff_value. rewrite Hc. simpl.
    destruct (ttest_ind _ _) as [ts tp]. eexists. reflexivity.
  - apply Nat.ltb_ge in E.
    assert (Hc : nth_error (map snd (Hgmd.sorted_exp cells g)) idx = None).
    { apply nth_error_None. rewrite length_map. exact E. }
    unfold cutoff_value. rewrite Hc. reflexivity.
Qed.

Lemma singleton_test_raise (cells : Hgmd.Cells) (clus : Z) (X L : option Z)
  (e : exn) :
  Hgmd.singleton_test xlmhg_test ttest_ind cells clus X L = Raise e <->
  mapM (Hgmd.test_gene xlmhg_test ttest_ind cells clus X L)
    (Hgmd.gene_columns cells) = Raise e.
Proof.
  unfold Hgmd.singleton_test.
  destruct (mapM _ (Hgmd.gene_columns cells)) as [rows|e']; simpl.
  - split; discriminate.
  - split; intro H; injection H as ->; reflexivity.
Qed.

Lemma test_gene_name (cells : Hgmd.Cells) (clus : Z) (X L : option Z)
  (g : string * list Q) (r : Hgmd.SingletonRow) :
  Hgmd.test_gene xlmhg_test ttest_ind cells clus X L g = Ok r ->
  Hgmd.gene r = fst g.
Proof.
  unfold Hgmd.test_gene.
  destruct (xlmhg_test _ X L) as [[[stat idx] pval]|e]; simpl; [|discriminate].
  destruct (cutoff_value _ idx) as [c|e]; simpl; [|discriminate].
  destruct (cutoff_slide _ idx) as [j|e]; simpl; [|discriminate].
  destruct (ttest_ind _ _) as [ts tp]. intro H. injection H as <-.
  reflexivity.
Qed.

Lemma singleton_test_rows (cells : Hgmd.Cells) (clus : Z) (X L : option Z)
  (table : list (Hgmd.SingletonRow * option Q)) :
  Hgmd.singleton_test xlmhg_test ttest_ind cells clus X L = Ok table ->
  exists rows,
    mapM (Hgmd.test_gene xlmhg_test ttest_ind cells clus X L)
      (Hgmd.gene_columns cells) = Ok rows /\
    Permutation (map fst table) rows.
Proof.
  unfold Hgmd.singleton_test.
  destruct (mapM _ (Hgmd.gene_columns cells)) as [rows|e'] eqn:Hrows; simpl;
    [|discriminate].
  intro H. injection H as <-. exists rows. split; [reflexivity|].
  rewrite sort_values_nan_perm. rewrite combine_fst; [reflexivity|].
  unfold Pandas.rank, rank_nan.
  repeat (rewrite ?length_combine, ?length_map). lia.
Qed.

End SingletonTestMore.

(** X8.  [singleton_test] returns no partial table: it raises [e] exactly
    when, going through the gene columns in order, the first gene on which
    the XL-mHG call raises or returns a cutoff that is not a position of the
    column raises [e] (the error of the call, or [IndexError]). *)
Theorem singleton_test_raises_first_error :
  forall (xlmhg_test : list Z -> option Z -> option Z -> result (Q * nat * Q))
         (ttest_ind : list Q -> list Q -> option Q * option Q)
         (cells : Hgmd.Cells) (clus : Z) (X L : option Z) (e : exn),
    Hgmd.singleton_test xlmhg_test ttest_ind cells clus X L = Raise e <->
    exists before g after,
      Hgmd.gene_columns cells = before ++ g :: after /\
      (forall g', In g' before ->
                  gene_error xlmhg_test cells clus X L g' = None) /\
      gene_error xlmhg_test cells clus X L g = Some e.
Proof.
  intros xlmhg_test ttest_ind cells clus X L e.
  rewrite singleton_test_raise, mapM_raise. split.
  - intros (before & g & after & Hcols & Hb & Hg).
    exists before, g, after. split; [exact Hcols|]. split.
    + intros g' Hg'. destruct (Hb g' Hg') as (r & Hr).
      pose proof (test_gene_outcome xlmhg_test ttest_ind cells clus X L g')
        as Ho.
      destruct (gene_error xlmhg_test cells clus X L g') as [e'|];
        [congruence | reflexivity].
    + pose proof (test_gene_outcome xlmhg_test ttest_ind cells clus X L g)
        as Ho.
      destruct (gene_error xlmhg_test cells clus X L g) as [e'|].
      * congruence.
      * destruct Ho as (r & Hr). congruence.
  - intros (before & g & after & Hcols & Hb & Hg).
    exists before, g, after. split; [exact Hcols|]. split.
    + intros g' Hg'.
      pose proof (test_gene_outcome xlmhg_test ttest_ind cells clus X L g')
        as Ho.
      rewrite (Hb g' Hg') in Ho. exact Ho.
    + pose proof (test_gene_outcome xlmhg_test ttest_ind cells clus X L g)
        as Ho.
      rewrite Hg in Ho. exact Ho.
Qed.

(** X9.  The table [singleton_test] returns has one row per gene column of
    [cells]: its gene names are those of the columns, in some order. *)
Theorem singleton_test_one_row_per_gene :
  forall (xlmhg_test : list Z -> option Z -> option Z -> result (Q * nat * Q))
         (ttest_ind : list Q -> list Q -> option Q * option Q)
         (cells : Hgmd.Cells) (clus : Z) (X L : option Z)
         (table : list (Hgmd.SingletonRow * option Q)),
    Hgmd.singleton_test xlmhg_test ttest_ind cells clus X L = Ok table ->
    Permutation (map (fun r => Hgmd.gene (fst r)) table)
                (map fst (Hgmd.gene_columns cells)).
Proof.
  intros xlmhg_test ttest_ind cells clus X L table H.
  destruct (singleton_test_rows xlmhg_test ttest_ind cells clus X L table H)
    as (rows & Hrows & Hperm).
  rewrite <- (map_map fst Hgmd.gene), Hperm.
  rewrite (mapM_map _ Hgmd.gene fst _ _
             (test_gene_name xlmhg_test ttest_ind cells clus X L) Hrows).
  reflexivity.
Qed.

Lemma singleton_test_one_row_per_gene_witness :
  exists table,
    Hgmd.singleton_test xlmhg_trivial ttest_nan cells_example 1
      (Some 1%Z) (Some 3%Z) = Ok table /\
    Permutation (map (fun r => Hgmd.gene (fst r)) table)
                (map fst (Hgmd.gene_columns cells_example)).
Proof.
  eexists. split; [reflexivity|].
  apply (singleton_test_one_row_per_gene xlmhg_trivial ttest_nan
           cells_example 1 (Some 1%Z) (Some 3%Z)).
  reflexivity.
Defined.

(** X10.  In every row of the table [singleton_test] returns, the cutoff
    index is the number of cells whose expression of the row's gene is
    strictly above the row's cutoff value: the cells before the index are
    the cells that express the gene. *)
Theorem singleton_test_cutoff_index_counts_cells_above :
  forall (xlmhg_test : list Z -> option Z -> option Z -> result (Q * nat * Q))
         (ttest_ind : list Q -> list Q -> option Q * option Q)
         (cells : Hgmd.Cells) (clus : Z) (X L : option Z)
         (table : list (Hgmd.SingletonRow * option Q)),
    Hgmd.singleton_test xlmhg_test ttest_ind cells clus X L = Ok table ->
    forall r rk, In (r, rk) table ->
      exists g,
        In g (Hgmd.gene_columns cells) /\
        Hgmd.gene r = fst g /\
        Hgmd.mHG_cutoff_index r
        = cells_above cells g (Hgmd.mHG_cutoff_value r).
Proof.
  intros xlmhg_test ttest_ind cells clus X L table H r rk Hin.
  destruct (singleton_test_rows xlmhg_test ttest_ind cells clus X L table H)
    as (rows & Hrows & Hperm).
  assert (Hr : In r rows).
  { apply (Permutation_in _ Hperm). change r with (fst (r, rk)).
    apply in_map. exact Hin. }
  destruct (mapM_In _ _ _ Hrows r Hr) as (g & Hg & Htest).
  exists g. split; [exact Hg|]. split.
  { exact (test_gene_name xlmhg_test ttest_ind cells clus X L g r Htest). }
  destruct (test_gene_cutoff xlmhg_test ttest_ind cells clus X L g r Htest)
    as (stat & idx & pval & _ & Hval & Hslide).
  set (vals := map snd (Hgmd.sorted_exp cells g)) in *.
  set (c := Hgmd.mHG_cutoff_value r) in *.
  assert (Hd : descending vals) by apply sorted_exp_descending.
  assert (Hc : nth_error vals idx = Some c).
  { unfold cutoff_value in Hval. destruct (nth_error vals idx);
      [congruence | discriminate]. }
  destruct (cutoff_slide_bounds vals idx c Hd Hc)
    as (j & Hj & Hle & _ & Hlow & Hhigh).
  rewrite Hslide in Hj. injection Hj as Hj. rewrite Hj.
  assert (Hidx : idx < length vals) by (apply nth_error_Some; congruence).
  unfold cells_above. fold c.
  rewrite <- (filter_length_cut (fun x => Qltb c x) vals j).
  - apply filter_length_perm. unfold vals, Hgmd.sorted_exp.
    apply Permutation_map. apply sort_values_desc_perm.
  - lia.
  - intros i Hi. apply Qltb_lt. apply Hlow. exact Hi.
  - intros i Hi. apply Qltb_ge. apply Hhigh. exact Hi.
Qed.

Lemma singleton_test_cutoff_index_counts_witness :
  exists table,
    Hgmd.singleton_test xlmhg_trivial ttest_nan cells_example 1
      (Some 1%Z) (Some 3%Z) = Ok table /\
    forall r rk, In (r, rk) table ->
      exists g,
        In g (Hgmd.gene_columns cells_example) /\
        Hgmd.gene r = fst g /\
        Hgmd.mHG_cutoff_index r
        = cells_above cells_example g (Hgmd.mHG_cutoff_value r).
Proof.
  eexists. split; [reflexivity|].
  apply (singleton_test_cutoff_index_counts_cells_above xlmhg_trivial
           ttest_nan cells_example 1 (Some 1%Z) (Some 3%Z)).
  reflexivity.
Defined.

(** ** More on [process] *)





(** X12.  A run never writes both a triple and a quadruple table: the
    triple table is written exactly when the K given is 3, the quadruple
    table exactly when it is 4 or more, and neither when K is absent or
    below 3. *)
Theorem process_writes_trips_or_quads :
  forall (K : option Z) (Trim : Z) (merged : list SingRow)
         (pair : list ComboRow) (ranked_pair : list (ComboRow * nat))
         (trips quads_fin : list ComboRow),
    let e := process_exports (main_K K) Trim merged pair ranked_pair
               trips quads_fin in
    (trips_csv e = None \/ quads_csv e = None) /\
    (trips_csv e <> None <-> K = Some 3%Z) /\
    (quads_csv e <> None <-> exists k, K = Some k /\ (4 <= k)%Z).
Proof.
  intros K Trim merged pair ranked_pair trips quads_fin e.
  unfold e, process_exports. simpl.
  assert (HK : main_K K = match K with
                          | Some k => Z.min k 4
                          | None => 2%Z
                          end).
  { destruct K as [k|]; [|reflexivity]. unfold main_K.
    destruct (k >? 4)%Z eqn:E.
    - apply Z.gtb_lt in E. lia.
    - rewrite Z.gtb_ltb in E. apply Z.ltb_ge in E. lia. }
  rewrite HK.
  destruct K as [k|].
  - destruct (Z.min k 4 =? 3)%Z eqn:E3; destruct (Z.min k 4 >=? 4)%Z eqn:E4.
    + apply Z.eqb_eq in E3. apply Z.geb_le in E4. lia.
    + apply Z.eqb_eq in E3.
      split; [right; reflexivity|]. split; split; intro H.
      * f_equal. lia.
      * discriminate.
      * congruence.
      * destruct H as (k' & Hk & Hk'). injection Hk as <-. lia.
    + apply Z.eqb_neq in E3. apply Z.geb_le in E4.
      split; [left; reflexivity|]. split; split; intro H.
      * congruence.
      * injection H as ->. lia.
      * exists k. split; [reflexivity | lia].
      * discriminate.
    + apply Z.eqb_neq in E3. rewrite Z.geb_leb in E4. apply Z.leb_gt in E4.
      split; [left; reflexivity|]. split; split; intro H.
      * congruence.
      * injection H as ->. lia.
      * congruence.
      * destruct H as (k' & Hk & Hk'). injection Hk as <-. lia.
  - simpl. split; [left; reflexivity|]. split; split; intro H.
    + congruence.
    + discriminate.
    + congruence.
    + destruct H as (k' & Hk & _). discriminate.
Qed.

(** ** The gene list *)

Import GeneList.

Lemma remove_first_after (x : string) (keep rest : list string) :
  Forall (fun y => y <> x) keep ->
  remove_first x (keep ++ x :: rest) = Exc.Return (keep ++ rest).
Proof.
  induction keep as [|y keep IH]; intro H; simpl.
  - rewrite String.eqb_refl. reflexivity.
  - inversion H as [|? ? Hy Hk]; subst.
    apply String.eqb_neq in Hy. rewrite Hy, (IH Hk). reflexivity.
Qed.

Section GeneListFacts.
Variable upper : string -> string.

Lemma expand_commas_closed (copy keep added : list string) :
  Forall (fun y => no_comma y = true) keep ->
  expand_commas upper copy (keep ++ copy ++ added)
  = Exc.Return
      (keep ++ filter no_comma copy ++ added
       ++ flat_map (fields upper) (filter (contains comma) copy)).
Proof.
  revert keep added. induction copy as [|item copy IH]; intros keep added Hk.
  - simpl. rewrite app_nil_r. reflexivity.
  - assert (Hnc : no_comma item = negb (contains comma item))
      by reflexivity.
    cbn [expand_commas filter]. rewrite Hnc.
    destruct (contains comma item) eqn:E; cbn [negb].
    + change (keep ++ (item :: copy) ++ added)
        with (keep ++ item :: copy ++ added).
      rewrite remove_first_after.
      * simpl Exc.and_then.
        replace ((keep ++ copy ++ added) ++ map upper (split_on comma item))
          with (keep ++ copy ++ (added ++ fields upper item))
          by (unfold fields; rewrite <- !app_assoc; reflexivity).
        rewrite (IH keep (added ++ fields upper item) Hk). simpl flat_map.
        rewrite <- !app_assoc. reflexivity.
      * eapply Forall_impl; [|exact Hk]. intros y Hy ->.
        unfold no_comma in Hy. rewrite E in Hy. discriminate Hy.
    + replace (keep ++ (item :: copy) ++ added)
        with ((keep ++ [item]) ++ copy ++ added)
        by (rewrite <- app_assoc; reflexivity).
      rewrite IH.
      * rewrite <- app_assoc. reflexivity.
      * apply Forall_app. split; [exact Hk|]. constructor; [|constructor].
        unfold no_comma. rewrite E. reflexivity.
Qed.

Lemma master_gene_list_lines (lines : list string) :
  length lines <> 1 ->
  master_gene_list upper lines
  = Exc.Return
      (filter no_comma (map (strip_line) lines)
       ++ flat_map (fields upper)
            (filter (contains comma) (map (strip_line) lines))).
Proof.
  intro Hlen.
  assert (H : master_gene_list upper lines
              = expand_commas upper (map strip_line lines)
                  (map strip_line lines)).
  { destruct lines as [|a [|b rest]]; try reflexivity.
    simpl in Hlen. congruence. }
  rewrite H.
  pose proof (expand_commas_closed (map strip_line lines) [] []
                (Forall_nil _)) as Hc.
  simpl in Hc. rewrite app_nil_r in Hc. exact Hc.
Qed.

End GeneListFacts.

Lemma NoDup_names_unique (old : list Column) (g : string) (d d' : list Q) :
  NoDup (map fst old) -> In (g, d) old -> In (g, d') old -> d = d'.
Proof.
  induction old as [|[n x] old IH]; intros Hnd H1 H2; [contradiction|].
  simpl in Hnd. inversion Hnd as [|? ? Hn Hold]; subst.
  destruct H1 as [E1 | H1], H2 as [E2 | H2].
  - congruence.
  - injection E1 as -> ->. exfalso. apply Hn.
    change g with (fst (g, d')). apply in_map. exact H2.
  - injection E2 as -> ->. exfalso. apply Hn.
    change g with (fst (g, d)). apply in_map. exact H1.
  - exact (IH Hold H1 H2).
Qed.

Lemma get_column_Some (old : list Column) (g : string) (d : list Q) :
  NoDup (map fst old) ->
  (get_column old g = Some d <-> In (g, d) old).
Proof.
  intro Hnd. unfold get_column.
  destruct (find (fun c : string * list Q => String.eqb (fst c) g) old)
    as [[n x]|] eqn:F; simpl.
  - apply find_some in F. destruct F as [F E]. simpl in E.
    apply String.eqb_eq in E. subst n. split.
    + intro H. assert (x = d) by congruence. subst x. exact F.
    + intro Hin. f_equal. exact (NoDup_names_unique old g x d Hnd F Hin).
  - split; [discriminate|]. intro Hin. exfalso.
    pose proof (find_none _ _ F _ Hin) as E. simpl in E.
    rewrite String.eqb_refl in E. discriminate E.
Qed.

Lemma get_column_None (old : list Column) (g : string) :
  get_column old g = None <-> ~ In g (map fst old).
Proof.
  unfold get_column.
  destruct (find (fun c : string * list Q => String.eqb (fst c) g) old)
    as [c|] eqn:F; simpl.
  - split; [discriminate|]. intro Hn. exfalso.
    apply find_some in F. destruct F as [F E].
    apply String.eqb_eq in E. apply Hn. rewrite <- E. apply in_map. exact F.
  - split; [|reflexivity]. intros _ Hin. apply in_map_iff in Hin.
    destruct Hin as (c & <- & Hc).
    pose proof (find_none _ _ F _ Hc) as E. simpl in E.
    rewrite String.eqb_refl in E. discriminate E.
Qed.

(** With a column taken from [old], whose names are distinct, setting it in
    a table made of columns of [old] either changes nothing or adds it. *)
Lemma set_column_known (old new : list Column) (g : string) (d : list Q) :
  NoDup (map fst old) -> incl new old -> In (g, d) old ->
  set_column new g d
  = if existsb (fun c => String.eqb (fst c) g) new then new
    else new ++ [(g, d)].
Proof.
  intros Hnd Hincl Hin. unfold set_column.
  destruct (existsb (fun c : string * list Q => String.eqb (fst c) g) new);
    [|reflexivity].
  rewrite <- (map_id new) at 2. apply map_ext_in. intros [n x] Hc. simpl.
  destruct (String.eqb n g) eqn:E; [|reflexivity].
  apply String.eqb_eq in E. subst n. f_equal.
  exact (NoDup_names_unique old g d x Hnd Hin (Hincl _ Hc)).
Qed.

Lemma filter_genes_gen (genes : list string) (old new : list Column) :
  NoDup (map fst old) -> incl new old -> NoDup (map fst new) ->
  let result :=
    fold_left
      (fun new gene =>
         match get_column old gene with
         | Some data => set_column new gene data
         | None => new
         end)
      genes new in
  (forall c, In c result <-> In c new \/ (In c old /\ In (fst c) genes)) /\
  NoDup (map fst result).
Proof.
  intro Hnd. revert new.
  induction genes as [|g genes IH]; intros new Hincl Hnew; simpl.
  - split; [|exact Hnew]. intro c. tauto.
  - destruct (get_column old g) as [d|] eqn:G.
    + apply (get_column_Some old g d Hnd) in G.
      rewrite (set_column_known old new g d Hnd Hincl G).
      destruct (existsb (fun c : string * list Q => String.eqb (fst c) g)
                  new) eqn:E.
      * destruct (IH new Hincl Hnew) as [Hmem Hnd'].
        split; [|exact Hnd']. intro c. rewrite Hmem. split; [tauto|].
        intros [H | [Hc [Hg | Hg]]]; auto.
        left. apply existsb_exists in E. destruct E as ([n x] & Hx & En).
        simpl in En. apply String.eqb_eq in En. subst n.
        destruct c as [n y]. simpl in Hg. subst n.
        rewrite (NoDup_names_unique old g y x Hnd Hc (Hincl _ Hx)).
        exact Hx.
      * assert (Hfresh : ~ In g (map fst new)).
        { intro Hin. apply in_map_iff in Hin. destruct Hin as (c & Hc & Hin).
          assert (existsb (fun c => String.eqb (fst c) g) new = true).
          { apply existsb_exists. exists c. split; [exact Hin|].
            apply String.eqb_eq. exact Hc. }
          congruence. }
        destruct (IH (new ++ [(g, d)])) as [Hmem Hnd'].
        { intros c Hc. apply in_app_or in Hc.
          destruct Hc as [Hc | [<- | []]]; [apply Hincl; exact Hc | exact G]. }
        { rewrite map_app. simpl.
          apply (Permutation_NoDup (l := g :: map fst new)).
          - apply Permutation_cons_append.
          - constructor; assumption. }
        split; [|exact Hnd']. intro c. rewrite Hmem. split.
        -- intros [H | [Hc Hg]]; [|tauto].
           apply in_app_or in H. destruct H as [H | [<- | []]]; [tauto|].
           right. split; [exact G | left; reflexivity].
        -- intros [H | [Hc [Hg | Hg]]].
           ++ left. apply in_or_app. left. exact H.
           ++ left. apply in_or_app. right. left.
              destruct c as [n y]. simpl in Hg. subst n. f_equal.
              exact (NoDup_names_unique old g d y Hnd G Hc).
           ++ right. split; assumption.
    + destruct (IH new Hincl Hnew) as [Hmem Hnd'].
      split; [|exact Hnd']. intro c. rewrite Hmem. split; [tauto|].
      intros [H | [Hc [Hg | Hg]]]; auto.
      exfalso. apply (proj1 (get_column_None old g) G).
      rewrite Hg. apply in_map. exact Hc.
Qed.

Lemma filter_genes_columns (genes : list string) (old : list Column) :
  NoDup (map fst old) ->
  (forall c, In c (filter_genes genes old)
             <-> In c old /\ In (fst c) genes) /\
  NoDup (map fst (filter_genes genes old)).
Proof.
  intro Hnd.
  destruct (filter_genes_gen genes old [] Hnd) as [Hmem Hnd'].
  - intros c [].
  - constructor.
  - split; [|exact Hnd']. intro c. unfold filter_genes. rewrite Hmem.
    simpl. tauto.
Qed.

(** X13.  A gene file of several lines (or none) gives the gene list in
    closed form, and never fails: first the lines without comma, each as it
    is written but for its newline, in their order; then, for each line with
    commas in turn, its fields in upper case. *)
Theorem master_gene_list_of_lines :
  forall (upper : string -> string) (lines : list string),
    length lines <> 1 ->
    master_gene_list upper lines
    = Exc.Return
        (filter no_comma (map strip_line lines)
         ++ flat_map (fields upper)
              (filter (contains comma) (map strip_line lines))).
Proof.
  exact master_gene_list_lines.
Qed.

Lemma master_gene_list_of_lines_witness :
  length ["Cd4" ++ String newline ""; "cd8a,Foxp3" ++ String newline "";
          "Gata3"]%string <> 1 /\
  master_gene_list ascii_upper
    ["Cd4" ++ String newline ""; "cd8a,Foxp3" ++ String newline "";
     "Gata3"]%string
  = Exc.Return ["Cd4"; "Gata3"; "CD8A"; "FOXP3"]%string.
Proof.
  assert (H : length ["Cd4" ++ String newline "";
                      "cd8a,Foxp3" ++ String newline ""; "Gata3"]%string
              <> 1) by (simpl; lia).
  split; [exact H|].
  rewrite (master_gene_list_of_lines ascii_upper _ H). reflexivity.
Defined.

(** X14.  The marker table filtered by a gene list holds exactly the columns
    of the table whose name is in the list, each once: a name of the list
    that is no column is passed over without error, and a name listed twice
    gives one column.  (Distinct column names.) *)
Theorem filter_genes_keeps_listed_columns :
  forall (genes : list string) (old : list Column),
    NoDup (map fst old) ->
    (forall c, In c (filter_genes genes old)
               <-> In c old /\ In (fst c) genes) /\
    NoDup (map fst (filter_genes genes old)).
Proof.
  exact filter_genes_columns.
Qed.

Lemma filter_genes_keeps_listed_columns_witness :
  NoDup (map fst [("A", [1]); ("B", [2]); ("C", [3])]%string%Q) /\
  filter_genes ["C"; "X"; "A"; "C"]%string
    [("A", [1]); ("B", [2]); ("C", [3])]%string%Q
  = [("C", [3]); ("A", [1])]%string%Q.
Proof.
  assert (H : NoDup (map fst [("A", [1]); ("B", [2]); ("C", [3])]%string%Q)).
  { simpl. repeat constructor; simpl; intuition discriminate. }
  split; [exact H|].
  destruct (filter_genes_keeps_listed_columns ["C"; "X"; "A"; "C"]%string
              [("A", [1]); ("B", [2]); ("C", [3])]%string%Q H) as [_ _].
  reflexivity.
Defined.

(** X15.  With a gene file of several lines, a gene on a line of its own is
    looked up as it is written, while the columns of the marker table were
    upper-cased: its column is kept exactly when the name as written is the
    upper-cased name of a column, so that a gene written in lower case is
    lost.  (Distinct upper-cased column names.) *)
Theorem gene_on_its_own_line_is_matched_as_written :
  forall (upper : string -> string) (lines : list string)
         (old : list Column) (g : string),
    length lines <> 1 ->
    NoDup (map fst (upper_columns upper old)) ->
    In g (map strip_line lines) ->
    no_comma g = true ->
    exists table,
      read_data_genes upper lines old = Exc.Return table /\
      ((exists data, In (g, data) table) <->
       In g (map upper (map fst old))).
Proof.
  intros upper lines old g Hlen Hnd Hg Hnc.
  unfold read_data_genes. rewrite (master_gene_list_lines upper lines Hlen).
  simpl Exc.and_then. eexists. split; [reflexivity|].
  destruct (filter_genes_columns
              (filter no_comma (map strip_line lines)
               ++ flat_map (fields upper)
                    (filter (contains comma) (map strip_line lines)))
              (upper_columns upper old) Hnd) as [Hmem _].
  assert (Hnames : map fst (upper_columns upper old)
                   = map upper (map fst old)).
  { unfold upper_columns. rewrite !map_map. reflexivity. }
  split.
  - intros (data & Hin). apply Hmem in Hin. destruct Hin as [Hin _].
    rewrite <- Hnames. change g with (fst (g, data)). apply in_map.
    exact Hin.
  - intro Hin. rewrite <- Hnames in Hin. apply in_map_iff in Hin.
    destruct Hin as ([n data] & Hn & Hin). simpl in Hn. subst n.
    exists data. apply Hmem. split; [exact Hin|]. simpl.
    apply in_or_app. left. apply filter_In. split; assumption.
Qed.

Lemma gene_on_its_own_line_witness :
  length ["cd4" ++ String newline ""; "Gata3"]%string <> 1 /\
  NoDup (map fst (upper_columns ascii_upper
                    [("Cd4", [1]); ("Gata3", [2])]%string%Q)) /\
  In "cd4"%string
     (map strip_line ["cd4" ++ String newline ""; "Gata3"]%string) /\
  no_comma "cd4" = true /\
  exists table,
    read_data_genes ascii_upper ["cd4" ++ String newline ""; "Gata3"]%string
      [("Cd4", [1]); ("Gata3", [2])]%string%Q = Exc.Return table /\
    ((exists data, In ("cd4"%string, data) table) <->
     In "cd4"%string
        (map ascii_upper (map fst [("Cd4", [1]); ("Gata3", [2])]%string%Q))).
Proof.
  assert (H1 : length ["cd4" ++ String newline ""; "Gata3"]%string <> 1)
    by (simpl; lia).
  assert (H2 : NoDup (map fst (upper_columns ascii_upper
                                 [("Cd4", [1]); ("Gata3", [2])]%string%Q))).
  { vm_compute. repeat constructor; simpl; intuition discriminate. }
  assert (H3 : In "cd4"%string
                 (map strip_line ["cd4" ++ String newline ""; "Gata3"]%string))
    by (left; reflexivity).
  assert (H4 : no_comma "cd4" = true) by reflexivity.
  split; [exact H1|]. split; [exact H2|]. split; [exact H3|].
  split; [exact H4|].
  exact (gene_on_its_own_line_is_matched_as_written ascii_upper _ _ _
           H1 H2 H3 H4).
Defined.

(** ** The order of the table of [singleton_test] *)

Lemma count_if_step {A : Type} (f : A -> bool) (x : A) (l : list A) :
  count_if f (x :: l) = ((if f x then 1 else 0) + count_if f l)%Z.
Proof.
  unfold count_if. simpl. destruct (f x); [|lia].
  simpl length. rewrite Nat2Z.inj_succ. lia.
Qed.

Lemma count_if_nonneg {A : Type} (f : A -> bool) (l : list A) :
  (0 <= count_if f l)%Z.
Proof. unfold count_if. lia. Qed.

(** The values below or equal to [x] are all below a larger [y]. *)
Lemma count_below_larger (col : list Q) (x y : Q) :
  (x < y)%Q ->
  (count_if (fun z => Qltb z x) col + count_if (fun z => Qeq_bool z x) col
   <= count_if (fun z => Qltb z y) col)%Z.
Proof.
  intro Hxy. induction col as [|z col IH].
  - unfold count_if. simpl. lia.
  - rewrite !count_if_step.
    destruct (Qltb z x) eqn:E1; destruct (Qeq_bool z x) eqn:E2;
      destruct (Qltb z y) eqn:E3; try lia; exfalso.
    + apply Qltb_lt in E1. apply Qeq_bool_iff in E2. rewrite E2 in E1.
      exact (Qlt_irrefl _ E1).
    + apply Qltb_lt in E1. apply Qeq_bool_iff in E2. rewrite E2 in E1.
      exact (Qlt_irrefl _ E1).
    + apply Qltb_lt in E1. apply Qltb_ge in E3.
      apply (Qlt_irrefl z). eapply Qlt_le_trans; [|exact E3].
      eapply Qlt_trans; eassumption.
    + apply Qeq_bool_iff in E2. apply Qltb_ge in E3. rewrite E2 in E3.
      exact (Qlt_not_le _ _ Hxy E3).
Qed.

Lemma count_equal_member (col : list Q) (y : Q) :
  In y col -> (1 <= count_if (fun z => Qeq_bool z y) col)%Z.
Proof.
  induction col as [|z col IH]; intro H; [contradiction|].
  rewrite count_if_step. destruct H as [-> | H].
  - assert (E : Qeq_bool y y = true) by (apply Qeq_bool_iff; reflexivity).
    rewrite E. pose proof (count_if_nonneg (fun z => Qeq_bool z y) col). lia.
  - specialize (IH H). destruct (Qeq_bool z y); lia.
Qed.

(** The average rank grows with the value. *)
Lemma rank_of_increasing (col : list Q) (x y : Q) :
  In y col -> (x < y)%Q -> (rank_of col x < rank_of col y)%Q.
Proof.
  intros Hy Hxy. unfold rank_of.
  pose proof (count_below_larger col x y Hxy) as H1.
  pose proof (count_equal_member col y Hy) as H2.
  pose proof (count_if_nonneg (fun z => Qeq_bool z x) col) as H3.
  set (lx := count_if (fun z => Qltb z x) col) in *.
  set (ex := count_if (fun z => Qeq_bool z x) col) in *.
  set (ly := count_if (fun z => Qltb z y) col) in *.
  set (ey := count_if (fun z => Qeq_bool z y) col) in *.
  rewrite Zle_Qle in H1, H2, H3. rewrite inject_Z_plus in H1.
  change (inject_Z 1) with 1%Q in H2. change (inject_Z 0) with 0%Q in H3.
  revert H1 H2 H3.
  generalize (inject_Z lx) (inject_Z ex) (inject_Z ly) (inject_Z ey).
  intros a b c d H1 H2 H3. unfold Qdiv. change (/ 2)%Q with (1 # 2)%Q.
  lra.
Qed.

Lemma combine_map_self {A B : Type} (g : A -> B) (l : list A) :
  combine l (map g l) = map (fun x => (x, g x)) l.
Proof.
  induction l as [|x l IH]; simpl; [reflexivity | rewrite IH; reflexivity].
Qed.

Lemma combine_map_map {A B C : Type} (f : A -> B) (g : A -> C) (l : list A) :
  combine (map f l) (map g l) = map (fun x => (f x, g x)) l.
Proof.
  induction l as [|x l IH]; simpl; [reflexivity | rewrite IH; reflexivity].
Qed.

Lemma somes_In {A : Type} (col : list (option A)) (x : A) :
  In (Some x) col -> In x (somes col).
Proof.
  intro H. unfold somes. apply in_flat_map. exists (Some x).
  split; [exact H | left; reflexivity].
Qed.

Section SingletonTestOrder.
Variable xlmhg_test : list Z -> option Z -> option Z -> result (Q * nat * Q).
Variable ttest_ind : list Q -> list Q -> option Q * option Q.

(** The table in terms of the rows of the loop: each with the sum of its two
    average ranks, the rows with a rank first and by ascending rank. *)
Lemma singleton_test_table (cells : Hgmd.Cells) (clus : Z) (X L : option Z)
  (table : list (Hgmd.SingletonRow * option Q)) :
  Hgmd.singleton_test xlmhg_test ttest_ind cells clus X L = Ok table ->
  exists rows l1 l2,
    table = l1 ++ l2 /\
    StronglySorted
      (key_le (fun x : Hgmd.SingletonRow * option Q =>
                 match snd x with Some q => q | None => 0%Q end)) l1 /\
    (forall x, In x l2 -> snd x = None) /\
    (forall r rk, In (r, rk) table ->
       In r rows /\
       rk = Hgmd.add_rank
              (rank_of (map Hgmd.mHG_pval rows) (Hgmd.mHG_pval r))
              (option_map (rank_of (somes (map Hgmd.t_pval rows)))
                 (Hgmd.t_pval r))).
Proof.
  unfold Hgmd.singleton_test.
  destruct (mapM _ (Hgmd.gene_columns cells)) as [rows|e'] eqn:Hrows; simpl;
    [|discriminate].
  intro H. injection H as <-.
  set (F := fun r => Hgmd.add_rank
                       (rank_of (map Hgmd.mHG_pval rows) (Hgmd.mHG_pval r))
                       (option_map (rank_of (somes (map Hgmd.t_pval rows)))
                          (Hgmd.t_pval r))).
  assert (Hc : combine rows
                 (map (fun p => Hgmd.add_rank (fst p) (snd p))
                    (combine (Pandas.rank (map Hgmd.mHG_pval rows))
                       (rank_nan (map Hgmd.t_pval rows))))
               = map (fun r => (r, F r)) rows).
  { unfold Pandas.rank, rank_nan. rewrite !map_map.
    rewrite combine_map_map, map_map. simpl.
    apply combine_map_self. }
  rewrite Hc. unfold sort_values_nan.
  exists rows. eexists. eexists. split; [reflexivity|]. split; [|split].
  - apply sort_values_sorted.
  - intros x Hx. apply filter_In in Hx. destruct Hx as [_ Hx].
    destruct (snd x); [discriminate | reflexivity].
  - intros r rk Hin.
    assert (Hin' : In (r, rk) (map (fun r => (r, F r)) rows)).
    { apply in_app_or in Hin. destruct Hin as [Hin | Hin].
      - apply (Permutation_in _ (sort_values_perm _ _)) in Hin.
        apply filter_In in Hin. tauto.
      - apply filter_In in Hin. tauto. }
    apply in_map_iff in Hin'. destruct Hin' as (r' & Heq & Hr').
    injection Heq as -> <-. split; [exact Hr' | reflexivity].
Qed.

End SingletonTestOrder.

(** X16.  In the table [singleton_test] returns, a gene whose mHG p-value
    and whose t-test p-value (neither NaN) are both smaller than those of
    another gene stands before it. *)
Theorem singleton_test_orders_dominated_genes :
  forall (xlmhg_test : list Z -> option Z -> option Z -> result (Q * nat * Q))
         (ttest_ind : list Q -> list Q -> option Q * option Q)
         (cells : Hgmd.Cells) (clus : Z) (X L : option Z)
         (table : list (Hgmd.SingletonRow * option Q))
         (i j : nat) (a b : Hgmd.SingletonRow) (ra rb : option Q) (ta tb : Q),
    Hgmd.singleton_test xlmhg_test ttest_ind cells clus X L = Ok table ->
    nth_error table i = Some (a, ra) ->
    nth_error table j = Some (b, rb) ->
    (Hgmd.mHG_pval a < Hgmd.mHG_pval b)%Q ->
    Hgmd.t_pval a = Some ta ->
    Hgmd.t_pval b = Some tb ->
    (ta < tb)%Q ->
    i < j.
Proof.
  intros xlmhg_test ttest_ind cells clus X L table i j a b ra rb ta tb
         H Hi Hj Hp Hta Htb Ht.
  destruct (singleton_test_table xlmhg_test ttest_ind cells clus X L table H)
    as (rows & l1 & l2 & Htab & Hsorted & Hnan & Hrank).
  destruct (Hrank a ra (nth_error_In _ _ Hi)) as [Ha Hra].
  destruct (Hrank b rb (nth_error_In _ _ Hj)) as [Hb Hrb].
  rewrite Hta in Hra. rewrite Htb in Hrb. simpl in Hra, Hrb.
  set (qa := (rank_of (map Hgmd.mHG_pval rows) (Hgmd.mHG_pval a)
              + rank_of (somes (map Hgmd.t_pval rows)) ta)%Q) in *.
  set (qb := (rank_of (map Hgmd.mHG_pval rows) (Hgmd.mHG_pval b)
              + rank_of (somes (map Hgmd.t_pval rows)) tb)%Q) in *.
  assert (Hq : (qa < qb)%Q).
  { unfold qa, qb. apply Qplus_lt_le_compat.
    - apply rank_of_increasing; [|exact Hp]. apply in_map. exact Hb.
    - apply Qlt_le_weak. apply rank_of_increasing; [|exact Ht].
      apply somes_In. rewrite <- Htb. apply in_map. exact Hb. }
  assert (Hpos : forall k x q, nth_error table k = Some (x, Some q) ->
                               nth_error l1 k = Some (x, Some q)).
  { intros k x q Hk. rewrite Htab in Hk.
    destruct (le_lt_dec (length l1) k) as [Hge | Hlt].
    - rewrite nth_error_app2 in Hk by exact Hge.
      apply nth_error_In in Hk. apply Hnan in Hk. discriminate Hk.
    - rewrite nth_error_app1 in Hk by exact Hlt. exact Hk. }
  subst ra rb. apply Hpos in Hi, Hj.
  destruct (Nat.lt_trichotomy i j) as [Hlt | [Heq | Hgt]]; [exact Hlt | |];
    exfalso.
  - subst j. rewrite Hi in Hj.
    apply (f_equal (fun o : option (Hgmd.SingletonRow * option Q) =>
                      match o with
                      | Some (_, Some q) => q
                      | _ => 0%Q
                      end)) in Hj.
    cbv beta iota in Hj. rewrite Hj in Hq. exact (Qlt_irrefl _ Hq).
  - pose proof (StronglySorted_nth_error _ l1 Hsorted j i _ _ Hgt Hj Hi)
      as Hle.
    unfold key_le in Hle. simpl in Hle. exact (Qlt_not_le _ _ Hq Hle).
Qed.

Lemma singleton_test_orders_dominated_genes_witness :
  exists table a ra b rb ta tb,
    Hgmd.singleton_test xlmhg_sample ttest_sample cells_example 1
      (Some 1%Z) (Some 3%Z) = Ok table /\
    nth_error table 0 = Some (a, ra) /\
    nth_error table 1 = Some (b, rb) /\
    (Hgmd.mHG_pval a < Hgmd.mHG_pval b)%Q /\
    Hgmd.t_pval a = Some ta /\
    Hgmd.t_pval b = Some tb /\
    (ta < tb)%Q /\
    0 < 1.
Proof.
  do 7 eexists.
  split; [vm_compute; reflexivity|].
  split; [vm_compute; reflexivity|].
  split; [vm_compute; reflexivity|].
  split; [vm_compute; reflexivity|].
  split; [vm_compute; reflexivity|].
  split; [vm_compute; reflexivity|].
  split; [vm_compute; reflexivity|].
  eapply (singleton_test_orders_dominated_genes xlmhg_sample ttest_sample
            cells_example 1 (Some 1%Z) (Some 3%Z) _ 0 1).
  - vm_compute. reflexivity.
  - vm_compute. reflexivity.
  - vm_compute. reflexivity.
  - vm_compute. reflexivity.
  - vm_compute. reflexivity.
  - vm_compute. reflexivity.
  - vm_compute. reflexivity.
Defined.
